(** * EcoChain marketplace: normalizer, catalog query, cart and pricing

    A shallow embedding of [client/src/pages/Marketplace.tsx].

    The product normalizer [mapApiProductToProduct] runs on whatever the
    API returned, so it is embedded over untyped JavaScript values, with
    the [TypeError] of a member access on [undefined]/[null] made explicit.
    The catalog pipeline ([computed], [categories], [totalPages]) and the
    pricing line are embedded over the [Product] interface the component
    declares.  Numbers are integer valued (prices, token amounts, counts):
    on those the double arithmetic of the source is exact.  The engine's
    [toLowerCase] is a parameter of the catalog pipeline. *)

From stdpp Require Import base option list strings gmap sorting.
From Stdlib Require Import Ascii ZArith Lia.

Local Open Scope Z_scope.

(** ** JavaScript values *)

Module Js.

(** A number is an integer or [NaN]. *)
Inductive number : Type :=
| NaN
| Fin (z : Z).

#[warnings="-register-all"] Inductive value : Type :=
| VUndefined
| VNull
| VBool (b : bool)
| VNum (n : number)
| VStr (s : string)
| VArr (elems : list value)
| VObj (props : gmap string value).

Inductive error : Type :=
| TypeError.

(** The outcome of evaluating an expression: a value or a thrown error. *)
Inductive completion (A : Type) : Type :=
| Normal (a : A)
| Throw (e : error).
Arguments Normal {A} a.
Arguments Throw {A} e.

#[export] Instance completion_ret : MRet completion := λ A a, Normal a.
#[export] Instance completion_bind : MBind completion := λ A B k c,
  match c with
  | Normal a => k a
  | Throw e => Throw e
  end.

(** [ToBoolean]. *)
Definition truthy (v : value) : bool :=
  match v with
  | VUndefined | VNull => false
  | VBool b => b
  | VNum NaN => false
  | VNum (Fin z) => negb (z =? 0)
  | VStr s => negb (String.eqb s "")
  | VArr _ | VObj _ => true
  end.

(** [a || b] on operands without effects. *)
Definition logical_or (a b : value) : value := if truthy a then a else b.

Definition nullish (v : value) : bool :=
  match v with
  | VUndefined | VNull => true
  | _ => false
  end.

(** The value of [v.k] for a [v] that is neither [undefined] nor [null]
    and an identifier key [k] that is not a built-in property name
    (the keys read below: [_id], [name], [price], [fiatAmount], ...):
    an object yields its own property, everything else [undefined]. *)
Definition field (v : value) (k : string) : value :=
  match v with
  | VObj props => default VUndefined (props !! k)
  | _ => VUndefined
  end.

(** Member access [v.k]: a [TypeError] on [undefined] and [null]. *)
Definition get (v : value) (k : string) : completion value :=
  if nullish v then Throw TypeError else Normal (field v k).

(** [v[0]] for a [v] that is neither [undefined] nor [null]. *)
Definition index0 (v : value) : value :=
  match v with
  | VArr elems => default VUndefined (elems !! 0%nat)
  | VStr (String c _) => VStr (String c "")
  | VObj props => default VUndefined (props !! "0")
  | _ => VUndefined
  end.

(** Optional chaining [v?.[0]]. *)
Definition opt_index0 (v : value) : value :=
  if nullish v then VUndefined else index0 v.

(** [v === 'lit']. *)
Definition strict_eq_str (v : value) (lit : string) : bool :=
  match v with
  | VStr s => String.eqb s lit
  | _ => false
  end.

End Js.

Import Js.

(** ** The normalizer *)

(** The object built by the literal in [mapApiProductToProduct]: the nine
    properties of the [Product] interface, holding whatever values the
    expressions produced (types are erased at run time). *)
Record ProductObj : Type := mkProductObj {
  o_id : value;
  o_name : value;
  o_description : value;
  o_price : value;
  o_tokenPrice : value;
  o_category : value;
  o_imageUrl : value;
  o_sustainabilityScore : value;
  o_status : value
}.

Definition placeholder : string := "https://via.placeholder.com/150".

Definition mapApiProductToProduct (apiProduct : value) : completion ProductObj :=
  id ← get apiProduct "_id";
  name ← get apiProduct "name";
  description ← get apiProduct "description";
  price1 ← get apiProduct "price";
  fiatAmount ← get price1 "fiatAmount";
  price2 ← get apiProduct "price";
  tokenAmount ← get price2 "tokenAmount";
  category ← get apiProduct "category";
  images ← get apiProduct "images";
  sustainabilityScore ← get apiProduct "sustainabilityScore";
  status ← get apiProduct "status";
  Normal {|
    o_id := id;
    o_name := name;
    o_description := description;
    o_price := logical_or fiatAmount (VNum (Fin 0));
    o_tokenPrice := logical_or tokenAmount (VNum (Fin 0));
    o_category := category;
    o_imageUrl := logical_or (opt_index0 images) (VStr placeholder);
    o_sustainabilityScore := logical_or sustainabilityScore (VNum (Fin 85));
    o_status := if strict_eq_str status "sold_out"
                then VStr "sold_out" else VStr "available"
  |}.

(** ** The [Product] interface *)

Inductive Status : Type :=
| available
| sold_out.

(** [interface Product]: optional properties are [option]s, [None] being
    [undefined]. *)
Record Product : Type := mkProduct {
  id : string;
  name : string;
  description : option string;
  price : Z;
  tokenPrice : Z;
  category : option string;
  imageUrl : option string;
  sustainabilityScore : option Z;
  status : option Status
}.

#[export] Instance Status_eq_dec : EqDecision Status.
Proof. solve_decision. Defined.
#[export] Instance Product_eq_dec : EqDecision Product.
Proof. solve_decision. Defined.

(** Reading a run-time value at a property type of the interface. *)
Definition as_string (v : value) : option string :=
  match v with VStr s => Some s | _ => None end.

Definition as_number (v : value) : option Z :=
  match v with VNum (Fin z) => Some z | _ => None end.

Definition as_optional {A} (rd : value → option A) (v : value) : option (option A) :=
  match v with VUndefined => Some None | _ => Some <$> rd v end.

Definition as_Status (v : value) : option Status :=
  match v with
  | VStr s => if String.eqb s "available" then Some available
              else if String.eqb s "sold_out" then Some sold_out else None
  | _ => None
  end.

(** The object seen through the interface: [Some] exactly when every
    property has its declared type. *)
Definition as_Product (o : ProductObj) : option Product :=
  i ← as_string (o_id o);
  n ← as_string (o_name o);
  d ← as_optional as_string (o_description o);
  p ← as_number (o_price o);
  t ← as_number (o_tokenPrice o);
  c ← as_optional as_string (o_category o);
  u ← as_optional as_string (o_imageUrl o);
  s ← as_optional as_number (o_sustainabilityScore o);
  st ← as_optional as_Status (o_status o);
  Some (mkProduct i n d p t c u s st).

(** ** Strings *)

(** ASCII text: every character is below 128. *)
Definition is_ascii_char (c : ascii) : bool := (nat_of_ascii c <? 128)%nat.

Fixpoint is_ascii (s : string) : bool :=
  match s with
  | EmptyString => true
  | String c s' => is_ascii_char c && is_ascii s'
  end.

(** What [toLowerCase] does to ASCII text: the letters [A]-[Z] move to
    [a]-[z], every other character stays. *)
Definition lower_ascii (c : ascii) : ascii :=
  let n := nat_of_ascii c in
  if ((65 <=? n) && (n <=? 90))%nat then ascii_of_nat (n + 32) else c.

Fixpoint lower_text (s : string) : string :=
  match s with
  | EmptyString => EmptyString
  | String c s' => String (lower_ascii c) (lower_text s')
  end.

(** [String.prototype.toLowerCase] is a builtin of the engine: it maps
    every Unicode letter, and some by their context.  The component is
    modelled over it as a parameter; what is known of it is how it acts on
    ASCII text, and that it maps the empty text, and no other, to the
    empty text. *)
Definition lowers_ascii (toLowerCase : string → string) : Prop :=
  ∀ s, is_ascii s = true → toLowerCase s = lower_text s.

Definition keeps_empty (toLowerCase : string → string) : Prop :=
  ∀ s, toLowerCase s = "" ↔ s = "".

(** [s.includes(t)]: [t] occurs in [s] at some position. *)
Fixpoint includes (s t : string) : bool :=
  String.prefix t s ||
  match s with
  | EmptyString => false
  | String _ s' => includes s' t
  end.

(** [o || d] for an optional string: [undefined] and [''] are falsy. *)
Definition or_string (o : option string) (d : string) : string :=
  match o with
  | Some s => if String.eqb s "" then d else s
  | None => d
  end.

(** ** Arrays *)

(** [Array.prototype.slice(start, end)] on integer arguments: a negative
    index counts from the end, both are clamped to the array. *)
Definition slice {A} (l : list A) (start end_ : Z) : list A :=
  let len := Z.of_nat (length l) in
  let k := if start <? 0 then Z.max (len + start) 0 else Z.min start len in
  let final := if end_ <? 0 then Z.max (len + end_) 0 else Z.min end_ len in
  take (Z.to_nat (final - k)) (drop (Z.to_nat k) l).

Section Sort.
Context {A : Type} (comparefn : A → A → Z).

(** [sort_insert x l] places [x] in front of the first element it does not
    compare greater than. *)
Fixpoint sort_insert (x : A) (l : list A) : list A :=
  match l with
  | [] => [x]
  | y :: l' => if comparefn x y <=? 0 then x :: y :: l' else y :: sort_insert x l'
  end.

(** [Array.prototype.sort(comparefn)]: the sort is stable, so for a
    consistent comparator its result is determined; it is computed
    here by insertion from the right. *)
Definition sort (l : list A) : list A := foldr sort_insert [] l.
End Sort.

(** [new Set(iterable)] read back in iteration order: elements are kept
    in insertion order and adding one that is present changes nothing. *)
Definition Set_add (s : list string) (x : string) : list string :=
  if bool_decide (x ∈ s) then s else s ++ [x].

Definition new_Set (l : list string) : list string := foldl Set_add [] l.

(** ** The catalog view *)

Section Engine.
(** The engine's [toLowerCase]. *)
Context (toLowerCase : string → string).

(** The state the memoized view depends on, next to [products]. *)
Record Query : Type := mkQuery {
  activeCategory : string;
  searchTerm : string;
  sortBy : string;
  page : Z
}.

Record Computed : Type := mkComputed {
  total : Z;
  items : list Product
}.

Definition pageSize : Z := 12.

(** The callback of the category [filter]. *)
Definition category_is (c : string) (p : Product) : bool :=
  bool_decide (category p = Some c).

(** The callback of the search [filter], [t] being the lowered term. *)
Definition search_hit (t : string) (p : Product) : bool :=
  includes (toLowerCase (or_string (Some (name p)) "")) t ||
  includes (toLowerCase (or_string (description p) "")) t.

Definition by_category (c : string) (result : list Product) : list Product :=
  if String.eqb c "all" then result else filter (category_is c) result.

Definition by_search (term : string) (result : list Product) : list Product :=
  if String.eqb term "" then result
  else let t := toLowerCase term in filter (search_hit t) result.

Definition by_policy (policy : string) (result : list Product) : list Product :=
  let result :=
    if String.eqb policy "price_low"
    then sort (λ a b, price a - price b) result else result in
  let result :=
    if String.eqb policy "price_high"
    then sort (λ a b, price b - price a) result else result in
  result.

(** The body of the [useMemo] callback. *)
Definition computed (products : list Product) (q : Query) : Computed :=
  let result := products in
  let result := by_category (activeCategory q) result in
  let result := by_search (searchTerm q) result in
  let result := by_policy (sortBy q) result in
  let total := Z.of_nat (length result) in
  let start := (page q - 1) * pageSize in
  let end_ := start + pageSize in
  {| total := total; items := slice result start end_ |}.

Definition categories (products : list Product) : list string :=
  "all" :: new_Set ((λ product, or_string (category product) "uncategorized") <$> products).

(** [Math.ceil(a / b)] for integers [a] and [b > 0]. *)
Definition ceil_div (a b : Z) : Z := - ((- a) / b).

Definition totalPages (c : Computed) : Z := Z.max 1 (ceil_div (total c) pageSize).

(** The two pagination buttons and the reset done by the sort control. *)
Definition prev_page (p : Z) : Z := Z.max 1 (p - 1).
Definition next_page (c : Computed) (p : Z) : Z := Z.min (totalPages c) (p + 1).
Definition first_page : Z := 1.

(** ** Pricing *)

Record EcoWallet : Type := { currentBalance : option Z }.
Record User : Type := { ecoWallet : option EcoWallet }.

(** [user?.ecoWallet?.currentBalance || 0]. *)
Definition totalEcoTokens (user : option User) : Z :=
  let balance := u ← user; w ← ecoWallet u; currentBalance w in
  match balance with
  | Some b => if b =? 0 then 0 else b
  | None => 0
  end.

(** [Math.min] of two integers. *)
Definition Math_min (a b : Z) : Z := if b <? a then b else a.

Definition maxTokensUsable (tokenTotal : Z) (user : option User) : Z :=
  Math_min tokenTotal (totalEcoTokens user).

(** The amount shown on the [final-total] line. *)
Definition finalTotal (cartTotal tokenTotal : Z) (user : option User) : Z :=
  cartTotal - (maxTokensUsable tokenTotal user * 5).

(** ** The cart *)

Record CartLine : Type := mkCartLine {
  product : Product;
  quantity : Z
}.

(** Modelled from the spec: the cart operations live in
    [contexts/CartContext.tsx], which is not part of the sources at hand;
    the component only calls them.  [addToCart]: if a line for the
    product's id exists its quantity goes up by one, else a new line with
    quantity 1 is appended. *)
Fixpoint addToCart (p : Product) (cart : list CartLine) : list CartLine :=
  match cart with
  | [] => [mkCartLine p 1]
  | l :: cart' =>
      if String.eqb (id (product l)) (id p)
      then mkCartLine (product l) (quantity l + 1) :: cart'
      else l :: addToCart p cart'
  end.

(** Modelled from the spec: [removeFromCart] of the absent
    [contexts/CartContext.tsx] deletes the matching line if present and
    does nothing otherwise. *)
Definition removeFromCart (productId : string) (cart : list CartLine) : list CartLine :=
  filter (λ l, id (product l) ≠ productId) cart.

(** Modelled from the spec: [updateQuantity] of the absent
    [contexts/CartContext.tsx] removes the line when the new quantity is
    zero or less, and otherwise sets the line's quantity to it. *)
Definition updateQuantity (productId : string) (newQuantity : Z)
    (cart : list CartLine) : list CartLine :=
  if newQuantity <=? 0 then removeFromCart productId cart
  else (λ l, if String.eqb (id (product l)) productId
             then mkCartLine (product l) newQuantity else l) <$> cart.

(** Modelled from the spec: the derived totals of the absent
    [contexts/CartContext.tsx], sums over the lines of quantity times
    price. *)
Definition cartTotal (cart : list CartLine) : Z :=
  foldr (λ l acc, quantity l * price (product l) + acc) 0 cart.

Definition tokenTotal (cart : list CartLine) : Z :=
  foldr (λ l acc, quantity l * tokenPrice (product l) + acc) 0 cart.

(** ** Loading the catalog *)

(** The three pieces of state the fetch effect writes. *)
Record Load : Type := mkLoad {
  st_products : list ProductObj;
  st_loading : bool;
  st_error : option string
}.

(** The state the component starts in. *)
Definition initial_load : Load := mkLoad [] true None.

Definition load_failed : string :=
  "Failed to load products. Please try again later.".

(** [arr.map(f)] for a callback that may throw: on an array the elements
    are mapped from left to right and the first throw ends the call; any
    other value has no [map] method to call. *)
Definition array_map {B} (f : value → completion B) (arr : value) : completion (list B) :=
  match arr with
  | VArr elems => mapM f elems
  | _ => Throw TypeError
  end.

(** The body of [fetchProducts], [response] being the outcome of awaiting
    [marketplaceService.getAllItems()]. *)
Definition fetchProducts (response : completion value) (st : Load) : Load :=
  let st := mkLoad (st_products st) true (st_error st) in
  let attempt :=
    apiProducts ← response;
    array_map mapApiProductToProduct apiProducts in
  match attempt with
  | Normal mappedProducts => mkLoad mappedProducts false None
  | Throw _ => mkLoad (st_products st) false (Some load_failed)
  end.

(** What the component returns: the three early returns, then the page. *)
Inductive Screen : Type :=
| CartErrorScreen
| LoadingScreen
| ErrorScreen (message : string)
| MarketScreen.

Definition render (cart_defined : bool) (st : Load) : Screen :=
  if negb cart_defined then CartErrorScreen
  else if st_loading st then LoadingScreen
  else match st_error st with
       | Some message =>
           if String.eqb message "" then MarketScreen else ErrorScreen message
       | None => MarketScreen
       end.

(** ** The product card *)

(** [p.imageUrl || '/logo192.png']. *)
Definition card_image (p : ProductObj) : value :=
  logical_or (o_imageUrl p) (VStr "/logo192.png").

(** [typeof p.sustainabilityScore === 'number']: whether the score badge
    is shown. *)
Definition shows_score (p : ProductObj) : bool :=
  match o_sustainabilityScore p with VNum _ => true | _ => false end.

(** [p.status === 'sold_out']: the badge and the disabled button. *)
Definition card_sold_out (p : ProductObj) : bool :=
  strict_eq_str (o_status p) "sold_out".

(** ** The controls *)

Inductive Event : Type :=
| TypeSearch (text : string)
| PickCategory (category : string)
| PickSort (policy : string)
| ClickPrev
| ClickNext
| ClearFilters.

(** The state setters each control calls, on the state the memoized view
    reads. *)
Definition handle (products : list Product) (q : Query) (e : Event) : Query :=
  match e with
  | TypeSearch text => mkQuery (activeCategory q) text (sortBy q) (page q)
  | PickCategory category => mkQuery category (searchTerm q) (sortBy q) (page q)
  | PickSort policy => mkQuery (activeCategory q) (searchTerm q) policy first_page
  | ClickPrev =>
      mkQuery (activeCategory q) (searchTerm q) (sortBy q) (prev_page (page q))
  | ClickNext =>
      mkQuery (activeCategory q) (searchTerm q) (sortBy q)
        (next_page (computed products q) (page q))
  | ClearFilters => mkQuery "all" "" (sortBy q) (page q)
  end.

(** When the pagination bar is rendered, and when its buttons are
    disabled. *)
Definition shows_pagination (c : Computed) : bool := 1 <? totalPages c.
Definition prev_disabled (p : Z) : bool := p =? 1.
Definition next_disabled (c : Computed) (p : Z) : bool := p =? totalPages c.

(** The [useState] initial values. *)
Definition initial_query : Query := mkQuery "all" "" "popular" 1.

(** The states the controls can lead to. *)
Inductive reachable (products : list Product) : Query → Prop :=
| reachable_initial : reachable products initial_query
| reachable_handle q e :
    reachable products q → reachable products (handle products q e).

(** * The API server's environment ([api/server.js]) *)

(** [process.env.k = process.env.k || d]: an unset or empty variable gets
    the development default. *)
Definition env_default (k d : string) (env : gmap string string) : gmap string string :=
  <[k := or_string (env !! k) d]> env.

(** The four assignments at the head of the module, in their order. *)
Definition jwt_defaults (env : gmap string string) : gmap string string :=
  let env := env_default "JWT_SECRET" "dev_jwt_secret_change_me" env in
  let env := env_default "JWT_EXPIRES_IN" "7d" env in
  let env := env_default "JWT_REFRESH_SECRET" "dev_refresh_secret_change_me" env in
  let env := env_default "JWT_REFRESH_EXPIRES_IN" "30d" env in
  env.

Definition jwt_keys : list string :=
  ["JWT_SECRET"; "JWT_EXPIRES_IN"; "JWT_REFRESH_SECRET"; "JWT_REFRESH_EXPIRES_IN"].

(** The [environment] property of the answer of the root route. *)
Definition root_environment (env : gmap string string) : string :=
  or_string (env !! "NODE_ENV") "development".

(** * The pricing repair script ([scripts/fix-existing-product-pricing.js]) *)

Record Pricing : Type := mkPricing {
  costPrice : Z;
  sellingPrice : Z;
  ecoTokenDiscount : Z
}.

(** A document of the factory product collection, as far as the script
    reads it; the collection is keyed by [_id]. *)
Record FactoryProduct : Type := mkFactoryProduct {
  productInfo_name : string;
  pricing : Pricing
}.

(** The filter of the [find]: [{ 'pricing.sellingPrice': { $lt: 200 } }]. *)
Definition selected (d : FactoryProduct) : Prop := sellingPrice (pricing d) < 200.

#[global] Instance selected_dec (d : FactoryProduct) : Decision (selected d).
Proof. unfold selected. apply _. Defined.

Definition find_selected (db : gmap string FactoryProduct) : list (string * FactoryProduct) :=
  map_to_list (filter (λ kv, selected kv.2) db).

(** [Product.findByIdAndUpdate(id, { 'pricing.sellingPrice': s,
    'pricing.ecoTokenDiscount': t })]: the two paths are set on the
    document with that id, if there is one. *)
Definition findByIdAndUpdate (i : string) (s t : Z)
    (db : gmap string FactoryProduct) : gmap string FactoryProduct :=
  alter (λ d, mkFactoryProduct (productInfo_name d)
                (mkPricing (costPrice (pricing d)) s t)) i db.

(** One turn of the loop, on a document of the list read at the start. *)
Definition fix_one (db : gmap string FactoryProduct)
    (found : string * FactoryProduct) : gmap string FactoryProduct :=
  let product := found.2 in
  let newSellingPrice := costPrice (pricing product) in
  let newTokenPrice := sellingPrice (pricing product) in
  findByIdAndUpdate found.1 newSellingPrice newTokenPrice db.

Record Run : Type := mkRun {
  db_after : gmap string FactoryProduct;
  fixed_count : nat;
  exit_code : Z
}.

(** [fixExistingProductPricing], [connected] telling whether [connectDB]
    succeeded; the queries themselves are taken to succeed. *)
Definition fixExistingProductPricing (connected : bool)
    (db : gmap string FactoryProduct) : Run :=
  if connected then
    let productsToFix := find_selected db in
    mkRun (foldl fix_one db productsToFix) (length productsToFix) 0
  else mkRun db 0 1.

(** * Specification vocabulary

    The notions the properties below are stated with. *)

(** What the object literal evaluates to once both member accesses on
    [apiProduct.price] are known not to throw. *)
Definition normalized (raw : value) : ProductObj :=
  let pr := field raw "price" in
  {| o_id := field raw "_id";
     o_name := field raw "name";
     o_description := field raw "description";
     o_price := logical_or (field pr "fiatAmount") (VNum (Fin 0));
     o_tokenPrice := logical_or (field pr "tokenAmount") (VNum (Fin 0));
     o_category := field raw "category";
     o_imageUrl := logical_or (opt_index0 (field raw "images")) (VStr placeholder);
     o_sustainabilityScore := logical_or (field raw "sustainabilityScore") (VNum (Fin 85));
     o_status := if strict_eq_str (field raw "status") "sold_out"
                 then VStr "sold_out" else VStr "available" |}.

Definition is_string (v : value) : bool :=
  match v with VStr _ => true | _ => false end.

Definition is_optional_string (v : value) : bool :=
  match v with VUndefined | VStr _ => true | _ => false end.

Definition is_optional_number (v : value) : bool :=
  match v with VUndefined | VNum _ => true | _ => false end.

Definition is_optional_strings (v : value) : bool :=
  match v with
  | VUndefined => true
  | VArr elems => forallb is_string elems
  | _ => false
  end.

(** Modelled from the spec: the shape of a raw product record, [price]
    being mandatory and the other properties optional; the
    [MarketplaceItem] interface itself is declared in
    [services/marketplaceService.ts], whose source is not available. *)
Definition has_item_shape (raw : value) : bool :=
  match raw, field raw "price" with
  | VObj _, VObj _ =>
      is_string (field raw "_id") &&
      is_string (field raw "name") &&
      is_optional_string (field raw "description") &&
      is_optional_number (field (field raw "price") "fiatAmount") &&
      is_optional_number (field (field raw "price") "tokenAmount") &&
      is_optional_string (field raw "category") &&
      is_optional_strings (field raw "images") &&
      is_optional_number (field raw "sustainabilityScore")
  | _, _ => false
  end.

(** [t] occurs in [s]. *)
Definition contains (s t : string) : Prop := ∃ pre post, s = pre +:+ t +:+ post.

(** The products a search for [term] is meant to keep. *)
Definition matches (term : string) (p : Product) : Prop :=
  contains (toLowerCase (name p)) (toLowerCase term) ∨
  contains (toLowerCase (default "" (description p))) (toLowerCase term).

(** The sequence after the two filters, and after the sort. *)
Definition matching (products : list Product) (q : Query) : list Product :=
  by_search (searchTerm q) (by_category (activeCategory q) products).

Definition sorted (products : list Product) (q : Query) : list Product :=
  by_policy (sortBy q) (matching products q).

Definition with_page (q : Query) (n : Z) : Query :=
  {| activeCategory := activeCategory q; searchTerm := searchTerm q;
     sortBy := sortBy q; page := n |}.

(** The vocabulary entry a product contributes. *)
Definition entry (p : Product) : string := or_string (category p) "uncategorized".

(** The product id of a cart line. *)
Definition line_id (l : CartLine) : string := id (product l).

(** The cart invariant of the data model. *)
Definition cart_ok (cart : list CartLine) : Prop :=
  Forall (λ l, 1 ≤ quantity l) cart ∧ NoDup (line_id <$> cart).

(** The records on which the normalizer returns. *)
Definition normalizable (raw : value) : bool :=
  negb (nullish raw) && negb (nullish (field raw "price")).

(** A document after the script has dealt with it: the cost price has
    become the selling price and the old selling price the token price. *)
Definition repriced (d : FactoryProduct) : FactoryProduct :=
  mkFactoryProduct (productInfo_name d)
    (mkPricing (costPrice (pricing d)) (costPrice (pricing d))
       (sellingPrice (pricing d))).

(** ** Sample data *)

(** Records as the API could deliver them. *)
Definition raw_jar : value :=
  VObj {[ "_id" := VStr "p1"; "name" := VStr "Jar";
          "price" := VObj {[ "fiatAmount" := VNum (Fin 100);
                             "tokenAmount" := VNum (Fin 10) ]} ]}.

Definition raw_without_price : value :=
  VObj {[ "_id" := VStr "p2"; "name" := VStr "Jar" ]}.

Definition raw_text_price : value :=
  VObj {[ "_id" := VStr "p3"; "name" := VStr "Jar";
          "price" := VObj {[ "fiatAmount" := VStr "abc" ]} ]}.

Definition raw_zero_score : value :=
  VObj {[ "_id" := VStr "p4"; "name" := VStr "Jar";
          "price" := VObj {[ "fiatAmount" := VNum (Fin 100) ]};
          "images" := VArr [VStr ""; VStr "b.png"];
          "sustainabilityScore" := VNum (Fin 0) ]}.

Definition clock : Product :=
  mkProduct "p1" "Bamboo Wall Clock" None 300 100 (Some "home") None None None.

Definition clock_a : Product :=
  mkProduct "a" "Bamboo Wall Clock" None 300 100 (Some "home") None None None.

Definition three : list Product :=
  [ clock_a;
    mkProduct "b" "Jar" (Some "Glass jar") 100 10 None None None None;
    mkProduct "c" "Tote Bag" None 300 20 (Some "fashion") None None None ].

Definition all_product : Product :=
  mkProduct "x" "Gift Card" None 500 0 (Some "all") None None None.

Definition cart_two : list CartLine :=
  [ mkCartLine clock 2; mkCartLine all_product 1 ].

Definition factory_db : gmap string FactoryProduct :=
  {[ "f1" := mkFactoryProduct "Bamboo Wall Clock" (mkPricing 300 100 0);
     "f2" := mkFactoryProduct "Jute Bag" (mkPricing 150 120 0);
     "f3" := mkFactoryProduct "Planter" (mkPricing 400 450 90) ]}.

(** * Properties *)

(** ** Pricing *)

Lemma Math_min_spec (a b : Z) : Math_min a b = Z.min a b.
Proof. unfold Math_min. destruct (Z.ltb_spec b a); lia. Qed.

Lemma totalEcoTokens_balance (b : Z) :
  totalEcoTokens (Some {| ecoWallet := Some {| currentBalance := Some b |} |}) = b.
Proof. unfold totalEcoTokens; simpl. destruct (Z.eqb_spec b 0); congruence. Qed.

Lemma totalEcoTokens_anonymous : totalEcoTokens None = 0.
Proof. reflexivity. Qed.

(** C1: for every cart subtotal, token subtotal and user, the tokens
    applied are the minimum of the token subtotal and the user's balance,
    the final total is the subtotal minus five times the tokens applied,
    and the final total is not floored: it is negative exactly when the
    token discount exceeds the subtotal. *)
Theorem C1_pricing_resolution (subtotal tokens : Z) (user : option User) :
  let userTokenBalance := totalEcoTokens user in
  let tokensApplied := maxTokensUsable tokens user in
  tokensApplied = Z.min tokens userTokenBalance ∧
  tokensApplied ≤ tokens ∧ tokensApplied ≤ userTokenBalance ∧
  finalTotal subtotal tokens user
  = subtotal - Z.min tokens userTokenBalance * 5 ∧
  (finalTotal subtotal tokens user < 0 ↔
   subtotal < Z.min tokens userTokenBalance * 5).
Proof.
  intros userTokenBalance tokensApplied.
  subst userTokenBalance tokensApplied.
  unfold finalTotal, maxTokensUsable. rewrite Math_min_spec. lia.
Qed.

Lemma C1_pricing_resolution_witness :
  finalTotal 100 120
    (Some {| ecoWallet := Some {| currentBalance := Some 50 |} |}) < 0.
Proof.
  apply (C1_pricing_resolution 100 120
           (Some {| ecoWallet := Some {| currentBalance := Some 50 |} |})).
  vm_compute. reflexivity.
Defined.

(** The token cap and the final total on the figures of the design
    notes. *)
Example token_cap_by_balance :
  maxTokensUsable 120
    (Some {| ecoWallet := Some {| currentBalance := Some 50 |} |}) = 50.
Proof. reflexivity. Qed.

Example token_cap_by_cart :
  maxTokensUsable 120
    (Some {| ecoWallet := Some {| currentBalance := Some 200 |} |}) = 120.
Proof. reflexivity. Qed.

Example final_total_arithmetic :
  finalTotal 1000 20
    (Some {| ecoWallet := Some {| currentBalance := Some 20 |} |}) = 900.
Proof. reflexivity. Qed.

(** ** The normalizer *)

Lemma normalize_returns (raw : value) :
  nullish raw = false → nullish (field raw "price") = false →
  mapApiProductToProduct raw = Normal (normalized raw).
Proof.
  intros Hraw Hprice. unfold mapApiProductToProduct, get.
  rewrite Hraw. cbn. rewrite Hprice. reflexivity.
Qed.

Lemma normalize_throws (raw : value) :
  nullish raw = true ∨ nullish (field raw "price") = true →
  mapApiProductToProduct raw = Throw TypeError.
Proof.
  unfold mapApiProductToProduct, get.
  destruct (nullish raw) eqn:Hraw; [reflexivity|].
  intros [?|Hprice]; [discriminate|]. cbn. rewrite Hprice. reflexivity.
Qed.

Lemma or_falsy (a b : value) : truthy a = false → logical_or a b = b.
Proof. unfold logical_or. intros ->. reflexivity. Qed.

Lemma or_truthy (a b : value) : truthy a = true → logical_or a b = a.
Proof. unfold logical_or. intros ->. reflexivity. Qed.

Lemma strict_eq_str_spec (v : value) (lit : string) :
  strict_eq_str v lit = true ↔ v = VStr lit.
Proof.
  destruct v; simpl; try (split; [discriminate|congruence]).
  rewrite String.eqb_eq. split; congruence.
Qed.

(** C6, as stated, fails: a record without [price] makes the normalizer
    throw, and a price field holding non-numeric text is kept as it is
    instead of becoming 0. *)
Lemma C6_counterexample :
  mapApiProductToProduct raw_without_price = Throw TypeError ∧
  ∃ p, mapApiProductToProduct raw_text_price = Normal p ∧
       o_price p = VStr "abc".
Proof. split; [|eexists; split]; vm_compute; reflexivity. Qed.

(** C6, amended: the normalizer throws exactly when the record or its
    [price] is [undefined] or [null]; otherwise it returns a product whose
    price and token price are 0 when the source field is falsy (absent,
    [null], 0, [NaN], empty) and the source value unchanged when it is
    truthy, whose image is the placeholder when [images] is absent, whose
    sustainability score is 85 when it is absent, and whose status is
    [available] for every source status other than [sold_out]. *)
Theorem C6_normalize_defaults (raw : value) :
  (mapApiProductToProduct raw = Throw TypeError ↔
     nullish raw = true ∨ nullish (field raw "price") = true) ∧
  (nullish raw = false → nullish (field raw "price") = false →
   ∃ p, mapApiProductToProduct raw = Normal p ∧
     let fiatAmount := field (field raw "price") "fiatAmount" in
     let tokenAmount := field (field raw "price") "tokenAmount" in
     (truthy fiatAmount = false → o_price p = VNum (Fin 0)) ∧
     (truthy fiatAmount = true → o_price p = fiatAmount) ∧
     (truthy tokenAmount = false → o_tokenPrice p = VNum (Fin 0)) ∧
     (truthy tokenAmount = true → o_tokenPrice p = tokenAmount) ∧
     (nullish (field raw "images") = true → o_imageUrl p = VStr placeholder) ∧
     (field raw "sustainabilityScore" = VUndefined →
        o_sustainabilityScore p = VNum (Fin 85)) ∧
     (field raw "status" ≠ VStr "sold_out" → o_status p = VStr "available") ∧
     (field raw "status" = VStr "sold_out" → o_status p = VStr "sold_out")).
Proof.
  split.
  - split; [|apply normalize_throws].
    destruct (nullish raw) eqn:Hraw; [auto|].
    destruct (nullish (field raw "price")) eqn:Hprice; [auto|].
    rewrite normalize_returns by assumption. discriminate.
  - intros Hraw Hprice. exists (normalized raw).
    split; [by apply normalize_returns|]. cbn.
    repeat split.
    + apply or_falsy.
    + apply or_truthy.
    + apply or_falsy.
    + apply or_truthy.
    + intros Himg. unfold opt_index0. rewrite Himg. reflexivity.
    + intros ->. reflexivity.
    + intros Hst. destruct (strict_eq_str _ _) eqn:E; [|reflexivity].
      apply strict_eq_str_spec in E. contradiction.
    + intros ->. reflexivity.
Qed.

Lemma C6_normalize_defaults_witness :
  ∃ p, mapApiProductToProduct raw_jar = Normal p ∧
       o_tokenPrice p = VNum (Fin 10) ∧
       o_imageUrl p = VStr placeholder ∧
       o_sustainabilityScore p = VNum (Fin 85) ∧
       o_status p = VStr "available".
Proof.
  destruct (C6_normalize_defaults raw_jar) as [_ H].
  destruct H as (p & Hp & _ & _ & _ & Htok & Himg & Hscore & Hstatus & _).
  - vm_compute. reflexivity.
  - vm_compute. reflexivity.
  - exists p. split; [exact Hp|]. repeat split.
    + rewrite Htok; vm_compute; reflexivity.
    + apply Himg. vm_compute. reflexivity.
    + apply Hscore. vm_compute. reflexivity.
    + apply Hstatus. vm_compute. discriminate.
Defined.

(** C10: a score that is present and 0 is replaced by 85, as every falsy
    score is, and an empty first image by the placeholder: falsy present
    values are treated like absent ones. *)
Theorem C10_falsy_like_absent (raw : value) :
  nullish raw = false → nullish (field raw "price") = false →
  ∃ p, mapApiProductToProduct raw = Normal p ∧
    (field raw "sustainabilityScore" = VNum (Fin 0) →
       o_sustainabilityScore p = VNum (Fin 85)) ∧
    (truthy (field raw "sustainabilityScore") = false →
       o_sustainabilityScore p = VNum (Fin 85)) ∧
    (∀ rest, field raw "images" = VArr (VStr "" :: rest) →
       o_imageUrl p = VStr placeholder) ∧
    (truthy (opt_index0 (field raw "images")) = false →
       o_imageUrl p = VStr placeholder).
Proof.
  intros Hraw Hprice. exists (normalized raw).
  split; [by apply normalize_returns|]. cbn. repeat split.
  - intros ->. reflexivity.
  - apply or_falsy.
  - intros rest ->. reflexivity.
  - apply or_falsy.
Qed.

Lemma C10_falsy_like_absent_witness :
  ∃ p, mapApiProductToProduct raw_zero_score = Normal p ∧
       o_sustainabilityScore p = VNum (Fin 85) ∧
       o_imageUrl p = VStr placeholder.
Proof.
  destruct (C10_falsy_like_absent raw_zero_score) as (p & Hp & Hscore & _ & Himg & _).
  - vm_compute. reflexivity.
  - vm_compute. reflexivity.
  - exists p. split; [exact Hp|]. split.
    + apply Hscore. vm_compute. reflexivity.
    + apply (Himg [VStr "b.png"]). vm_compute. reflexivity.
Defined.

Lemma or_number (v : value) (d : Z) :
  is_optional_number v = true →
  ∃ z, as_number (logical_or v (VNum (Fin d))) = Some z.
Proof.
  destruct v as [| | |[|z]| | |]; try discriminate; intros _; unfold logical_or; simpl.
  - by exists d.
  - by exists d.
  - destruct (z =? 0); simpl; eauto.
Qed.

Lemma or_first_image (v : value) :
  is_optional_strings v = true →
  ∃ u, logical_or (opt_index0 v) (VStr placeholder) = VStr u.
Proof.
  destruct v as [| | | | |elems|]; try discriminate.
  - intros _. by exists placeholder.
  - destruct elems as [|e elems]; [intros _; by exists placeholder|].
    simpl. intros [He _]%andb_true_iff.
    destruct e as [| | | |s| |]; try discriminate.
    unfold logical_or, opt_index0. simpl.
    destruct (String.eqb s ""); simpl; eauto.
Qed.

(** On a record of the declared shape the normalizer returns, and what
    it returns inhabits the [Product] interface. *)
Lemma normalize_well_typed (raw : value) :
  has_item_shape raw = true →
  ∃ o p, mapApiProductToProduct raw = Normal o ∧ as_Product o = Some p.
Proof.
  unfold has_item_shape. intros Hshape.
  destruct raw as [| | | | | |props]; try discriminate.
  destruct (field (VObj props) "price") as [| | | | | |price] eqn:Hprice;
    try discriminate.
  repeat (apply andb_true_iff in Hshape as [Hshape ?]).
  exists (normalized (VObj props)).
  rewrite normalize_returns by (by rewrite ?Hprice).
  unfold as_Product, normalized. rewrite Hprice. cbn [o_id o_name o_description
    o_price o_tokenPrice o_category o_imageUrl o_sustainabilityScore o_status].
  destruct (field (VObj props) "_id"); try discriminate.
  destruct (field (VObj props) "name"); try discriminate.
  destruct (or_number (field (VObj price) "fiatAmount") 0) as [fiat ->]; [done|].
  destruct (or_number (field (VObj price) "tokenAmount") 0) as [token ->]; [done|].
  destruct (or_first_image (field (VObj props) "images")) as [url ->]; [done|].
  destruct (or_number (field (VObj props) "sustainabilityScore") 85) as [score Hscore];
    [done|].
  assert (∃ sc, as_optional as_number
            (logical_or (field (VObj props) "sustainabilityScore") (VNum (Fin 85)))
          = Some sc) as [sc ->].
  { destruct (logical_or _ _) as [| | |[|z]| | |]; try discriminate; simpl; eauto. }
  assert (∃ st, as_optional as_Status
            (if strict_eq_str (field (VObj props) "status") "sold_out"
             then VStr "sold_out" else VStr "available") = Some st) as [st ->].
  { destruct (strict_eq_str _ _); simpl; eauto. }
  destruct (field (VObj props) "description"); try discriminate;
    destruct (field (VObj props) "category"); try discriminate;
    simpl; eauto.
Qed.

(** The normalizer copies [category] as it is: an absent category stays
    [undefined]. *)
Lemma normalize_keeps_category (raw : value) :
  nullish raw = false → nullish (field raw "price") = false →
  ∃ o, mapApiProductToProduct raw = Normal o ∧
       o_category o = field raw "category".
Proof.
  intros Hraw Hprice. exists (normalized raw).
  split; [by apply normalize_returns|reflexivity].
Qed.

(** ** Search *)

Lemma append_String (c : ascii) (s t : string) :
  String c s +:+ t = String c (s +:+ t).
Proof. reflexivity. Qed.

Lemma append_empty (t : string) : "" +:+ t = t.
Proof. reflexivity. Qed.

Lemma prefix_spec (t s : string) :
  String.prefix t s = true ↔ ∃ post, s = t +:+ post.
Proof.
  revert s. induction t as [|c t IH]; intros [|c' s]; simpl.
  - split; [intros _; exists ""; by rewrite append_empty|done].
  - split; [intros _; exists (String c' s); by rewrite append_empty|done].
  - split; [discriminate|intros [post H]].
    rewrite append_String in H. discriminate.
  - destruct (Ascii.ascii_dec c c') as [->|Hne].
    + rewrite IH. split; intros [post H]; exists post;
        rewrite append_String in *; congruence.
    + split; [discriminate|]. intros [post H].
      rewrite append_String in H. congruence.
Qed.

Lemma includes_empty (t : string) : includes "" t = String.prefix t "".
Proof. simpl. apply orb_false_r. Qed.

Lemma includes_String (c : ascii) (s t : string) :
  includes (String c s) t = String.prefix t (String c s) || includes s t.
Proof. reflexivity. Qed.

Lemma includes_spec (s t : string) : includes s t = true ↔ contains s t.
Proof.
  unfold contains. induction s as [|c s IH].
  - rewrite includes_empty, prefix_spec. split.
    + intros [post H]. exists "", post. by rewrite append_empty.
    + intros (pre & post & H). destruct pre as [|c' pre].
      * exists post. by rewrite append_empty in H.
      * rewrite append_String in H. discriminate.
  - rewrite includes_String, orb_true_iff, prefix_spec, IH. split.
    + intros [[post H]|(pre & post & H)].
      * exists "", post. by rewrite append_empty.
      * exists (String c pre), post. rewrite append_String. by rewrite H.
    + intros (pre & post & H). destruct pre as [|c' pre].
      * left. exists post. by rewrite append_empty in H.
      * right. exists pre, post. rewrite append_String in H. congruence.
Qed.

Lemma or_string_empty (o : option string) : or_string o "" = default "" o.
Proof.
  destruct o as [s|]; simpl; [|done].
  destruct (String.eqb_spec s ""); congruence.
Qed.

Lemma search_hit_spec (term : string) (p : Product) :
  search_hit (toLowerCase term) p = true ↔ matches term p.
Proof.
  unfold search_hit, matches.
  rewrite !or_string_empty, orb_true_iff, !includes_spec. done.
Qed.

#[global] Instance matches_dec (term : string) (p : Product) :
  Decision (matches term p).
Proof.
  refine (cast_if (decide (search_hit (toLowerCase term) p = true)));
    by rewrite <- search_hit_spec.
Defined.

Lemma filter_bool_prop {A} (f : A → bool) (P : A → Prop) `{∀ x, Decision (P x)}
    (l : list A) :
  (∀ x, f x = true ↔ P x) → filter f l = filter P l.
Proof.
  intros Hf. apply list_filter_iff. intros x. rewrite <- Hf.
  by destruct (f x).
Qed.

(** C5: a non-empty search term keeps exactly the products whose
    lower-cased name or lower-cased description contains the lower-cased
    term, in their order; lower-casing takes [Bamboo Wall Clock] to
    [bamboo wall clock], so [bamboo] finds a product of that name, while
    it does not find a product named [Jar] without a description; the
    empty term keeps every product. *)
Theorem C5_search_filter (products : list Product) (term : string) :
  lowers_ascii toLowerCase →
  (term ≠ "" →
   by_search term products = filter (matches term) products ∧
   ∀ p, p ∈ by_search term products ↔ p ∈ products ∧ matches term p) ∧
  (toLowerCase "Bamboo Wall Clock" = "bamboo wall clock" ∧
   toLowerCase "ABCDEFGHIJKLMNOPQRSTUVWXYZ" = "abcdefghijklmnopqrstuvwxyz" ∧
   toLowerCase "bamboo @[`{ 09" = "bamboo @[`{ 09") ∧
  (∀ p, name p = "Bamboo Wall Clock" →
     matches "bamboo" p ∧
     (p ∈ products → p ∈ by_search "bamboo" products)) ∧
  (∀ p, name p = "Jar" → description p = None →
     ¬ matches "bamboo" p ∧ p ∉ by_search "bamboo" products) ∧
  by_search "" products = products.
Proof.
  intros Hlower.
  assert (∀ t, t ≠ "" → by_search t products = filter (matches t) products)
    as Hfilter.
  { intros t Ht. unfold by_search.
    destruct (String.eqb_spec t ""); [contradiction|].
    apply filter_bool_prop, search_hit_spec. }
  assert (toLowerCase "bamboo" = "bamboo") as Hterm by (by rewrite Hlower).
  split; [|split; [|split; [|split; [|reflexivity]]]].
  - intros Hne. rewrite Hfilter by done.
    split; [done|]. intros p. rewrite list_elem_of_filter. tauto.
  - by rewrite !Hlower.
  - intros p Hname.
    assert (matches "bamboo" p) as Hm.
    { left. rewrite Hname, Hterm, Hlower by done. by exists "", " wall clock". }
    split; [exact Hm|]. intros Hp. rewrite Hfilter by done.
    by apply list_elem_of_filter.
  - intros p Hname Hdesc.
    assert (¬ matches "bamboo" p) as Hm.
    { unfold matches. rewrite Hname, Hdesc, Hterm. cbn [default].
      rewrite !Hlower by done. rewrite <- !includes_spec.
      intros [H|H]; vm_compute in H; discriminate. }
    split; [exact Hm|]. rewrite Hfilter by done.
    rewrite list_elem_of_filter. tauto.
Qed.

(** ** Sorting *)

Section SortFacts.
Context {A : Type} (key : A → Z) (comparefn : A → A → Z).
(** The comparator orders by [key]. *)
Hypothesis comparefn_key : ∀ x y, comparefn x y ≤ 0 ↔ key x ≤ key y.

Let le (x y : A) : Prop := key x ≤ key y.

Lemma sort_insert_Permutation (x : A) (l : list A) : sort_insert comparefn x l ≡ₚ x :: l.
Proof.
  induction l as [|y l IH]; simpl; [done|].
  destruct (comparefn x y <=? 0); [done|].
  rewrite IH. apply Permutation_swap.
Qed.

Lemma sort_Permutation (l : list A) : sort comparefn l ≡ₚ l.
Proof.
  induction l as [|x l IH]; simpl; [done|].
  rewrite sort_insert_Permutation. by rewrite IH.
Qed.

Lemma sort_insert_sorted (x : A) (l : list A) :
  StronglySorted le l → StronglySorted le (sort_insert comparefn x l).
Proof.
  induction 1 as [|y l Hl IH Hy]; simpl.
  - repeat constructor.
  - destruct (Z.leb_spec (comparefn x y) 0) as [Hc|Hc].
    + apply comparefn_key in Hc. constructor; [by constructor|].
      constructor; [done|].
      eapply Forall_impl; [exact Hy|]. unfold le. intros; lia.
    + assert (key y < key x) as Hlt.
      { destruct (Z.le_gt_cases (key x) (key y)) as [Hle|]; [|lia].
        apply comparefn_key in Hle. lia. }
      constructor; [done|].
      rewrite sort_insert_Permutation. constructor; [unfold le; lia|done].
Qed.

Lemma sort_sorted (l : list A) : StronglySorted le (sort comparefn l).
Proof.
  induction l as [|x l IH]; simpl; [constructor|by apply sort_insert_sorted].
Qed.

(** Inserting does not move [x] past an element of its own key, and
    does not reorder the others: within each key the order is kept. *)
Lemma sort_insert_stable (v : Z) (x : A) (l : list A) :
  filter (λ a, key a = v) (sort_insert comparefn x l)
  = filter (λ a, key a = v) (x :: l).
Proof.
  induction l as [|y l IH]; simpl; [done|].
  destruct (Z.leb_spec (comparefn x y) 0) as [Hc|Hc]; [done|].
  assert (key y < key x) as Hlt.
  { destruct (Z.le_gt_cases (key x) (key y)) as [Hle|]; [|lia].
    apply comparefn_key in Hle. lia. }
  rewrite filter_cons, IH, !filter_cons.
  repeat case_decide; try done; lia.
Qed.

Lemma sort_stable (v : Z) (l : list A) :
  filter (λ a, key a = v) (sort comparefn l) = filter (λ a, key a = v) l.
Proof.
  induction l as [|x l IH]; simpl; [done|].
  rewrite sort_insert_stable, !filter_cons, IH. done.
Qed.

(** A list ordered by key in which every key class appears in the same
    order as in [l] is the result of the sort: stability leaves the
    engine's algorithm no freedom. *)
Lemma stable_sorted_unique (l1 l2 : list A) :
  StronglySorted le l1 → StronglySorted le l2 →
  (∀ v, filter (λ a, key a = v) l1 = filter (λ a, key a = v) l2) →
  l1 = l2.
Proof.
  intros H1. revert l2. induction H1 as [|x l1 Hl1 IH Hx]; intros l2 H2 Hf.
  - destruct l2 as [|y l2]; [done|].
    specialize (Hf (key y)). rewrite filter_cons_True in Hf by done.
    discriminate.
  - destruct H2 as [|y l2 Hl2 Hy].
    { specialize (Hf (key x)). rewrite filter_cons_True in Hf by done.
      discriminate. }
    assert (key x = key y) as Hk.
    { assert (x ∈ y :: l2) as Hin.
      { eapply (list_elem_of_filter (λ a, key a = key x)).
        rewrite <- Hf, filter_cons_True by done. left. }
      assert (y ∈ x :: l1) as Hin'.
      { eapply (list_elem_of_filter (λ a, key a = key y)).
        rewrite Hf, filter_cons_True by done. left. }
      apply elem_of_cons in Hin as [->|Hin]; [done|].
      apply elem_of_cons in Hin' as [->|Hin']; [done|].
      rewrite Forall_forall in Hx, Hy.
      specialize (Hx _ Hin'). specialize (Hy _ Hin). unfold le in *. lia. }
    pose proof (Hf (key x)) as Hhd.
    rewrite filter_cons_True in Hhd by done.
    rewrite filter_cons_True in Hhd by done.
    injection Hhd as <- _. f_equal. apply IH; [done|].
    intros v. specialize (Hf v). rewrite !filter_cons in Hf.
    case_decide; [by injection Hf|done].
Qed.

Lemma sort_unique (l l' : list A) :
  StronglySorted le l' →
  (∀ v, filter (λ a, key a = v) l' = filter (λ a, key a = v) l) →
  l' = sort comparefn l.
Proof.
  intros Hs Hf. apply stable_sorted_unique; [done|apply sort_sorted|].
  intros v. by rewrite sort_stable.
Qed.
End SortFacts.

Lemma StronglySorted_mono {A} (R R' : A → A → Prop) (l : list A) :
  (∀ x y, R x y → R' x y) → StronglySorted R l → StronglySorted R' l.
Proof.
  intros HR. induction 1 as [|x l Hl IH Hx]; constructor; [done|].
  eapply Forall_impl; [exact Hx|]. auto.
Qed.

Lemma by_policy_price_low (result : list Product) :
  by_policy "price_low" result = sort (λ a b, price a - price b) result.
Proof. reflexivity. Qed.

Lemma by_policy_price_high (result : list Product) :
  by_policy "price_high" result = sort (λ a b, price b - price a) result.
Proof. reflexivity. Qed.

Lemma by_policy_other (policy : string) (result : list Product) :
  policy ≠ "price_low" → policy ≠ "price_high" → by_policy policy result = result.
Proof.
  intros Hlow Hhigh. unfold by_policy.
  destruct (String.eqb_spec policy "price_low"); [done|].
  destruct (String.eqb_spec policy "price_high"); done.
Qed.

Lemma by_policy_Permutation (policy : string) (result : list Product) :
  by_policy policy result ≡ₚ result.
Proof.
  unfold by_policy.
  destruct (String.eqb policy "price_low"), (String.eqb policy "price_high");
    rewrite ?sort_Permutation; done.
Qed.

Lemma by_category_sublist (c : string) (result : list Product) :
  by_category c result `sublist_of` result.
Proof.
  unfold by_category. destruct (String.eqb c "all"); [done|].
  apply sublist_filter.
Qed.

Lemma by_search_sublist (term : string) (result : list Product) :
  by_search term result `sublist_of` result.
Proof.
  unfold by_search. destruct (String.eqb term ""); [done|].
  apply sublist_filter.
Qed.

(** C4: [price_low] orders by price ascending and [price_high] by price
    descending, in both cases keeping products of equal price in the order
    they had before the sort; [popular] leaves the filtered sequence as it
    is, and that sequence is the catalog with products left out, in
    catalog order. *)
Theorem C4_sort_policy (products result : list Product) (c term : string) :
  let asc := by_policy "price_low" result in
  let desc := by_policy "price_high" result in
  (StronglySorted (λ a b, price a ≤ price b) asc ∧ asc ≡ₚ result ∧
   ∀ v, filter (λ p, price p = v) asc = filter (λ p, price p = v) result) ∧
  (StronglySorted (λ a b, price b ≤ price a) desc ∧ desc ≡ₚ result ∧
   ∀ v, filter (λ p, price p = v) desc = filter (λ p, price p = v) result) ∧
  by_policy "popular" result = result ∧
  by_policy "popular" (by_search term (by_category c products))
    `sublist_of` products.
Proof.
  intros asc desc. subst asc desc.
  rewrite by_policy_price_low, by_policy_price_high.
  split; [|split; [|split]].
  - split; [|split].
    + apply (sort_sorted price). intros; lia.
    + apply sort_Permutation.
    + intros v. apply (sort_stable price). intros; lia.
  - split; [|split].
    + eapply StronglySorted_mono;
        [|apply (sort_sorted (λ p, - price p)); intros; lia].
      simpl. intros; lia.
    + apply sort_Permutation.
    + intros v.
      rewrite (list_filter_iff (λ p, price p = v) (λ p, - price p = - v))
        by (intros; lia).
      rewrite (list_filter_iff (λ p, price p = v) (λ p, - price p = - v) result)
        by (intros; lia).
      apply (sort_stable (λ p, - price p)). intros; lia.
  - reflexivity.
  - etrans; [apply by_search_sublist|apply by_category_sublist].
Qed.

(** ** Pagination *)

Lemma computed_total (products : list Product) (q : Query) :
  total (computed products q) = Z.of_nat (length (matching products q)).
Proof.
  unfold computed, matching; simpl.
  by rewrite by_policy_Permutation.
Qed.

Lemma computed_items (products : list Product) (q : Query) :
  items (computed products q)
  = slice (sorted products q) ((page q - 1) * pageSize)
      ((page q - 1) * pageSize + pageSize).
Proof. reflexivity. Qed.

Lemma slice_sublist {A} (l : list A) (s e : Z) : slice l s e `sublist_of` l.
Proof. unfold slice. etrans; [apply sublist_take|apply sublist_drop]. Qed.

Lemma slice_length {A} (l : list A) (s n : Z) :
  0 ≤ n → (length (slice l s (s + n)) ≤ Z.to_nat n)%nat.
Proof.
  intros Hn. unfold slice. rewrite length_take, length_drop.
  destruct (Z.ltb_spec s 0), (Z.ltb_spec (s + n) 0); lia.
Qed.

Lemma slice_window {A} (l : list A) (s n : Z) :
  0 ≤ s → 0 ≤ n →
  slice l s (s + n) = take (Z.to_nat n) (drop (Z.to_nat s) l).
Proof.
  intros Hs Hn. unfold slice.
  destruct (Z.ltb_spec s 0), (Z.ltb_spec (s + n) 0); try lia.
  destruct (Z.le_gt_cases (Z.of_nat (length l)) s) as [Hout|Hin].
  - rewrite (drop_ge l (Z.to_nat s)) by (idtac; lia).
    rewrite drop_ge by (idtac; lia). by rewrite !take_nil.
  - rewrite (Z.min_l s) by (idtac; lia).
    destruct (Z.le_gt_cases (s + n) (Z.of_nat (length l))) as [Hfit|Hcut].
    + rewrite Z.min_l by (idtac; lia). f_equal. lia.
    + rewrite Z.min_r by (idtac; lia).
      rewrite !take_ge; [done| |]; rewrite length_drop; lia.
Qed.

Lemma slice_beyond {A} (l : list A) (s e : Z) :
  Z.of_nat (length l) ≤ s → slice l s e = [].
Proof.
  intros Hs. unfold slice. destruct (Z.ltb_spec s 0); [lia|].
  rewrite drop_ge by (idtac; lia). apply take_nil.
Qed.

Lemma ceil_div_upper (a b : Z) : 0 < b → a ≤ ceil_div a b * b.
Proof.
  intros Hb. unfold ceil_div.
  pose proof (Z.mul_div_le (- a) b Hb). lia.
Qed.

Lemma ceil_div_lower (a b : Z) : 0 < b → (ceil_div a b - 1) * b < a.
Proof.
  intros Hb. unfold ceil_div.
  pose proof (Z.mul_succ_div_gt (- a) b Hb). lia.
Qed.

Lemma totalPages_covers (c : Computed) (n : Z) :
  totalPages c < n → total c ≤ (n - 1) * pageSize.
Proof.
  unfold totalPages, pageSize. intros Hn.
  pose proof (ceil_div_upper (total c) 12). lia.
Qed.

(** Every page from 1 to [totalPages] of a non-empty result shows
    something: [totalPages] is the last page with items. *)
Lemma page_in_range_nonempty (products : list Product) (q : Query) :
  0 < total (computed products q) →
  1 ≤ page q ≤ totalPages (computed products q) →
  items (computed products q) ≠ [].
Proof.
  intros Htotal [Hlo Hhi]. rewrite computed_items.
  assert (Z.of_nat (length (sorted products q)) = total (computed products q))
    as Hlen by reflexivity.
  unfold pageSize in *.
  rewrite slice_window by (idtac; lia).
  assert ((page q - 1) * 12 < total (computed products q)) as Hstart.
  { unfold totalPages, pageSize in Hhi.
    pose proof (ceil_div_lower (total (computed products q)) 12). lia. }
  intros Hnil. apply (f_equal length) in Hnil.
  rewrite length_take, length_drop in Hnil.
  change (length (@nil Product)) with 0%nat in Hnil. lia.
Qed.

(** The page state never leaves the positive numbers. *)
Lemma page_controls_positive (c : Computed) (p : Z) :
  1 ≤ p → 1 ≤ prev_page p ∧ 1 ≤ next_page c p ∧ 1 ≤ first_page.
Proof. unfold prev_page, next_page, first_page, totalPages. lia. Qed.

(** C2: the total is the number of products left by the two filters,
    whatever the page; the page items are the window of [pageSize]
    products of the sorted result that starts at index
    [(page - 1) * pageSize], so never more than [pageSize]; a page after
    the last one has no items, and the total does not depend on the
    page. *)
Theorem C2_pagination (products : list Product) (q : Query) :
  total (computed products q) = Z.of_nat (length (matching products q)) ∧
  (1 ≤ page q →
   items (computed products q)
   = take (Z.to_nat pageSize)
       (drop (Z.to_nat ((page q - 1) * pageSize)) (sorted products q))) ∧
  Z.of_nat (length (items (computed products q))) ≤ pageSize ∧
  (totalPages (computed products q) < page q →
   items (computed products q) = []) ∧
  (∀ n, total (computed products (with_page q n)) = total (computed products q)).
Proof.
  split; [apply computed_total|]. split; [|split; [|split]].
  - intros Hpage. rewrite computed_items. apply slice_window; unfold pageSize; lia.
  - rewrite computed_items.
    pose proof (slice_length (sorted products q) ((page q - 1) * pageSize) pageSize).
    unfold pageSize in *. lia.
  - intros Hbeyond. rewrite computed_items. apply slice_beyond.
    apply totalPages_covers in Hbeyond.
    assert (Z.of_nat (length (sorted products q)) = total (computed products q))
      as -> by reflexivity.
    exact Hbeyond.
  - intros n. reflexivity.
Qed.

(** ** The category filter *)

Lemma by_category_filter (c : string) (result : list Product) :
  c ≠ "all" → by_category c result = filter (λ p, category p = Some c) result.
Proof.
  intros Hc. unfold by_category.
  destruct (String.eqb_spec c "all"); [done|].
  apply filter_bool_prop. intros p. unfold category_is.
  apply bool_decide_eq_true.
Qed.

(** A product without a category passes no category filter. *)
Lemma by_category_drops_absent (c : string) (result : list Product) (p : Product) :
  c ≠ "all" → category p = None → p ∉ by_category c result.
Proof.
  intros Hc Hp. rewrite by_category_filter by done.
  rewrite list_elem_of_filter. intros [Hcat _]. congruence.
Qed.

(** C3: under a category other than [all], every product counted by the
    total and every product on the page has that category, and the total
    is the number of products of that category that pass the search (all
    of them when there is no search term); the category [all] lets every
    product through. *)
Theorem C3_category_filter (products : list Product) (q : Query) :
  let c := activeCategory q in
  let of_category := filter (λ p, category p = Some c) products in
  (c ≠ "all" →
   Forall (λ p, category p = Some c) (matching products q) ∧
   Forall (λ p, category p = Some c) (items (computed products q)) ∧
   matching products q = by_search (searchTerm q) of_category ∧
   total (computed products q)
   = Z.of_nat (length (by_search (searchTerm q) of_category)) ∧
   (searchTerm q = "" →
    total (computed products q) = Z.of_nat (length of_category))) ∧
  by_category "all" products = products.
Proof.
  intros c of_category. split; [|reflexivity].
  intros Hc.
  assert (matching products q = by_search (searchTerm q) of_category) as Hm.
  { unfold matching. fold c. by rewrite by_category_filter. }
  assert (Forall (λ p, category p = Some c) (matching products q)) as Hall.
  { rewrite Hm, Forall_forall. intros p Hp.
    eapply elem_of_sublist in Hp; [|apply by_search_sublist].
    apply list_elem_of_filter in Hp as [Hcat _]. exact Hcat. }
  split; [exact Hall|]. split; [|split; [exact Hm|split]].
  - rewrite Forall_forall in *. intros p Hp. apply Hall.
    rewrite computed_items in Hp.
    eapply elem_of_sublist in Hp; [|apply slice_sublist].
    unfold sorted in Hp. by rewrite by_policy_Permutation in Hp.
  - by rewrite computed_total, Hm.
  - intros Hterm. by rewrite computed_total, Hm, Hterm.
Qed.

(** ** The uncategorized products *)

(** C7: a record without a category normalizes to a product whose
    category is still absent, not the sentinel; the vocabulary offers
    [uncategorized] for it, and the query for [uncategorized] finds
    nothing. *)
Theorem C7_uncategorized_query_finds_nothing :
  ∃ o p,
    mapApiProductToProduct raw_jar = Normal o ∧
    o_category o = VUndefined ∧
    as_Product o = Some p ∧
    category p = None ∧
    categories [p] = ["all"; "uncategorized"] ∧
    computed [p] (mkQuery "uncategorized" "" "popular" 1)
    = {| total := 0; items := [] |}.
Proof.
  eexists _, _. split; [vm_compute; reflexivity|].
  split; [reflexivity|]. split; [vm_compute; reflexivity|].
  split; [reflexivity|]. split; vm_compute; reflexivity.
Qed.

(** ** The category vocabulary *)

Lemma Set_add_nil (x : string) : Set_add [] x = [x].
Proof.
  unfold Set_add. case_bool_decide as Hx; [|done].
  by apply elem_of_nil in Hx.
Qed.

Lemma foldl_Set_add (acc l : list string) :
  foldl Set_add acc l = acc ++ filter (λ y, y ∉ acc) (new_Set l).
Proof.
  clear toLowerCase.
  unfold new_Set. revert acc. induction l as [|x l IH]; intros acc; simpl.
  - by rewrite app_nil_r.
  - rewrite Set_add_nil, (IH [x]), (IH (Set_add acc x)).
    simpl. rewrite filter_cons, list_filter_filter.
    unfold Set_add. case_bool_decide as Hx.
    + rewrite decide_False by auto. f_equal.
      apply list_filter_iff. intros y. rewrite list_elem_of_singleton.
      split; [|tauto]. intros Hy. split; [done|congruence].
    + rewrite decide_True by done. rewrite <- app_assoc. simpl. do 2 f_equal.
      apply list_filter_iff. intros y.
      rewrite elem_of_app, !list_elem_of_singleton. tauto.
Qed.

(** The set keeps first occurrences: the head comes first, followed by
    the distinct values of the rest other than the head. *)
Lemma new_Set_cons (x : string) (l : list string) :
  new_Set (x :: l) = x :: filter (λ y, y ≠ x) (new_Set l).
Proof.
  clear toLowerCase.
  unfold new_Set at 1. simpl. rewrite Set_add_nil, foldl_Set_add. simpl.
  f_equal. apply list_filter_iff. intros y. by rewrite list_elem_of_singleton.
Qed.

Lemma elem_of_new_Set (x : string) (l : list string) : x ∈ new_Set l ↔ x ∈ l.
Proof.
  clear toLowerCase.
  induction l as [|y l IH]; [done|].
  rewrite new_Set_cons, !elem_of_cons, list_elem_of_filter, IH.
  destruct (decide (x = y)); tauto.
Qed.

Lemma NoDup_new_Set (l : list string) : NoDup (new_Set l).
Proof.
  clear toLowerCase.
  induction l as [|y l IH]; [constructor|].
  rewrite new_Set_cons. apply NoDup_cons. split.
  - rewrite list_elem_of_filter. tauto.
  - by apply NoDup_filter.
Qed.

Lemma entry_all (p : Product) : entry p = "all" ↔ category p = Some "all".
Proof.
  unfold entry, or_string. destruct (category p) as [s|]; [|done].
  destruct (String.eqb_spec s ""); [subst; done|].
  split; congruence.
Qed.

(** The vocabulary is [all] followed by the distinct entries of the
    products in first-seen order; the part after [all] has no duplicates,
    and the whole vocabulary has none only when no product has the literal
    category [all]. *)
Lemma categories_first_seen (products : list Product) :
  ∃ rest,
    categories products = "all" :: rest ∧
    NoDup rest ∧
    (∀ c, c ∈ rest ↔ ∃ p, p ∈ products ∧ entry p = c) ∧
    (∀ p ps, products = p :: ps →
       rest = entry p :: filter (λ c, c ≠ entry p) (tail (categories ps))) ∧
    (∀ p, category p = None ∨ category p = Some "" →
       entry p = "uncategorized") ∧
    (NoDup (categories products) ↔
       ∀ p, p ∈ products → category p ≠ Some "all").
Proof.
  clear toLowerCase.
  exists (new_Set (entry <$> products)).
  assert (∀ c, c ∈ new_Set (entry <$> products) ↔ ∃ p, p ∈ products ∧ entry p = c)
    as Hmem.
  { intros c. rewrite elem_of_new_Set, list_elem_of_fmap.
    split; [intros (p & -> & Hp)|intros (p & Hp & <-)]; by exists p. }
  split; [reflexivity|]. split; [apply NoDup_new_Set|]. split; [exact Hmem|].
  split; [|split].
  - intros p ps ->. rewrite fmap_cons. apply new_Set_cons.
  - intros p [Hp|Hp]; unfold entry; by rewrite Hp.
  - change (categories products) with ("all" :: new_Set (entry <$> products)).
    rewrite NoDup_cons, Hmem. split.
    + intros [Hnot _] p Hp Hall. apply Hnot. exists p.
      split; [done|]. by apply entry_all.
    + intros Hnone. split; [|apply NoDup_new_Set].
      intros (p & Hp & Hall). apply (Hnone p Hp). by apply entry_all.
Qed.

(** C8: the vocabulary is meant to hold each category once, but a product
    whose category is the literal [all] makes it list [all] twice. *)
Theorem C8_all_listed_twice :
  categories [all_product] = ["all"; "all"] ∧
  ¬ NoDup (categories [all_product]).
Proof.
  assert (categories [all_product] = ["all"; "all"]) as Heq
    by (vm_compute; reflexivity).
  split; [exact Heq|]. rewrite Heq, NoDup_cons.
  intros [Hnotin _]. apply Hnotin. left.
Qed.

(** ** The cart *)

Lemma addToCart_ids (p : Product) (cart : list CartLine) :
  line_id <$> addToCart p cart
  = if bool_decide (id p ∈ line_id <$> cart)
    then line_id <$> cart else (line_id <$> cart) ++ [id p].
Proof.
  induction cart as [|l cart IH]; [reflexivity|].
  cbn [addToCart]. rewrite (fmap_cons line_id l cart).
  destruct (bool_decide_reflect (id p ∈ line_id l :: (line_id <$> cart)))
    as [Hin|Hin];
    destruct (String.eqb_spec (id (product l)) (id p)) as [Heq|Hne].
  - done.
  - rewrite fmap_cons, IH. rewrite bool_decide_eq_true_2; [done|].
    apply elem_of_cons in Hin as [Hin|Hin]; [|done].
    unfold line_id in Hin. congruence.
  - exfalso. apply Hin. unfold line_id at 1. rewrite Heq. left.
  - rewrite fmap_cons, IH. rewrite bool_decide_eq_false_2; [done|].
    rewrite not_elem_of_cons in Hin. tauto.
Qed.

Lemma addToCart_quantities (p : Product) (cart : list CartLine) :
  Forall (λ l, 1 ≤ quantity l) cart →
  Forall (λ l, 1 ≤ quantity l) (addToCart p cart).
Proof.
  induction 1 as [|l cart Hl Hcart IH]; simpl.
  - constructor; [simpl; lia|constructor].
  - destruct (String.eqb (id (product l)) (id p)).
    + constructor; [simpl; lia|done].
    + by constructor.
Qed.

Lemma addToCart_ok (p : Product) (cart : list CartLine) :
  cart_ok cart → cart_ok (addToCart p cart).
Proof.
  intros [Hq Hids]. split; [by apply addToCart_quantities|].
  rewrite addToCart_ids.
  case_bool_decide as Hin; [done|].
  apply NoDup_app. split; [done|]. split; [|apply NoDup_singleton].
  intros x Hx. rewrite list_elem_of_singleton. congruence.
Qed.

Lemma removeFromCart_ok (productId : string) (cart : list CartLine) :
  cart_ok cart → cart_ok (removeFromCart productId cart).
Proof.
  intros [Hq Hids]. unfold removeFromCart. split.
  - rewrite Forall_forall in *. intros l Hl. apply Hq.
    by apply list_elem_of_filter in Hl as [_ Hl].
  - eapply sublist_NoDup; [exact Hids|].
    apply fmap_sublist, sublist_filter.
Qed.

Lemma removeFromCart_gone (productId : string) (cart : list CartLine) (l : CartLine) :
  l ∈ removeFromCart productId cart → id (product l) ≠ productId.
Proof.
  clear toLowerCase. unfold removeFromCart. rewrite list_elem_of_filter. tauto. Qed.

Lemma removeFromCart_absent (productId : string) (cart : list CartLine) :
  productId ∉ line_id <$> cart → removeFromCart productId cart = cart.
Proof.
  intros Hnot. unfold removeFromCart.
  induction cart as [|l cart IH]; [done|].
  rewrite fmap_cons, not_elem_of_cons in Hnot. destruct Hnot as [Hne Hnot].
  rewrite filter_cons_True by (unfold line_id in Hne; congruence).
  by rewrite IH.
Qed.

Lemma updateQuantity_ids (productId : string) (n : Z) (cart : list CartLine) :
  0 < n → line_id <$> updateQuantity productId n cart = line_id <$> cart.
Proof.
  intros Hn. unfold updateQuantity.
  destruct (Z.leb_spec n 0); [lia|].
  rewrite <- list_fmap_compose. apply list_fmap_ext. intros i l _. simpl.
  by destruct (String.eqb (id (product l)) productId).
Qed.

Lemma updateQuantity_ok (productId : string) (n : Z) (cart : list CartLine) :
  cart_ok cart → cart_ok (updateQuantity productId n cart).
Proof.
  intros Hok. destruct (Z.le_gt_cases n 0) as [Hn|Hn].
  - unfold updateQuantity. destruct (Z.leb_spec n 0); [|lia].
    by apply removeFromCart_ok.
  - destruct Hok as [Hq Hids]. split.
    + unfold updateQuantity. destruct (Z.leb_spec n 0); [lia|].
      rewrite Forall_fmap. eapply Forall_impl; [exact Hq|].
      intros l Hl. unfold compose. simpl in Hl.
      destruct (String.eqb (id (product l)) productId); simpl; lia.
    + rewrite updateQuantity_ids by (idtac; lia). done.
Qed.

Lemma updateQuantity_lookup (productId : string) (n : Z) (cart : list CartLine)
    (i : nat) (l : CartLine) :
  0 < n → cart !! i = Some l →
  updateQuantity productId n cart !! i
  = Some (if decide (line_id l = productId)
          then mkCartLine (product l) n else l).
Proof.
  intros Hn Hl. unfold updateQuantity.
  destruct (Z.leb_spec n 0); [lia|].
  rewrite list_lookup_fmap, Hl. simpl. f_equal. unfold line_id.
  destruct (String.eqb_spec (id (product l)) productId);
    [by rewrite decide_True|by rewrite decide_False].
Qed.

(** Adding the same product twice counts it twice. *)
Lemma addToCart_twice_total (p : Product) :
  cartTotal (addToCart p (addToCart p [])) = 2 * price p.
Proof.
  simpl. rewrite String.eqb_refl. simpl. lia.
Qed.

(** C9: the three cart operations keep every quantity at 1 or more and
    the product ids of the lines distinct; [updateQuantity] with a
    quantity of 0 or less is [removeFromCart] and leaves no line for the
    product; with a positive quantity it keeps the lines in place, gives
    the product's line exactly that quantity and leaves the other lines
    as they are. *)
Theorem C9_cart_invariant (cart : list CartLine) :
  cart_ok cart →
  (∀ p, cart_ok (addToCart p cart)) ∧
  (∀ productId, cart_ok (removeFromCart productId cart)) ∧
  (∀ productId n, cart_ok (updateQuantity productId n cart)) ∧
  (∀ productId n, n ≤ 0 →
     updateQuantity productId n cart = removeFromCart productId cart ∧
     productId ∉ line_id <$> updateQuantity productId n cart) ∧
  (∀ productId n, 0 < n →
     line_id <$> updateQuantity productId n cart = line_id <$> cart ∧
     ∀ i l, cart !! i = Some l →
       updateQuantity productId n cart !! i
       = Some (if decide (line_id l = productId)
               then mkCartLine (product l) n else l)).
Proof.
  clear toLowerCase.
  intros Hok. split; [|split; [|split; [|split]]].
  - intros p. by apply addToCart_ok.
  - intros productId. by apply removeFromCart_ok.
  - intros productId n. by apply updateQuantity_ok.
  - intros productId n Hn.
    assert (updateQuantity productId n cart = removeFromCart productId cart) as ->.
    { unfold updateQuantity. destruct (Z.leb_spec n 0); [done|lia]. }
    split; [done|]. rewrite list_elem_of_fmap. intros (l & -> & Hl).
    by apply removeFromCart_gone in Hl.
  - intros productId n Hn. split; [by apply updateQuantity_ids|].
    intros i l. by apply updateQuantity_lookup.
Qed.

Lemma C9_cart_invariant_witness :
  cart_ok (updateQuantity "p1" 5 cart_two) ∧
  updateQuantity "p1" 0 cart_two = removeFromCart "p1" cart_two ∧
  updateQuantity "p1" 5 cart_two !! 0%nat = Some (mkCartLine clock 5).
Proof.
  assert (cart_ok cart_two) as Hok.
  { split.
    - repeat constructor; simpl; lia.
    - apply (bool_decide_unpack (NoDup ["p1"; "x"])). vm_compute. exact I. }
  destruct (C9_cart_invariant cart_two Hok) as (_ & _ & Hupd & Hzero & Hpos).
  split; [apply Hupd|]. split.
  - apply (Hzero "p1" 0). lia.
  - destruct (Hpos "p1" 5) as [_ Hline]; [lia|].
    rewrite (Hline 0%nat (mkCartLine clock 2)); reflexivity.
Defined.

(** * Further properties of the component *)

(** ** Loading *)

Lemma normalizable_spec (raw : value) :
  normalizable raw = true ↔
  nullish raw = false ∧ nullish (field raw "price") = false.
Proof.
  unfold normalizable. rewrite andb_true_iff, !negb_true_iff. done.
Qed.

Lemma normalize_inv (raw : value) (o : ProductObj) :
  mapApiProductToProduct raw = Normal o →
  normalizable raw = true ∧ o = normalized raw.
Proof.
  intros Hret. destruct (normalizable raw) eqn:Hn.
  - apply normalizable_spec in Hn as [Hraw Hprice].
    rewrite normalize_returns in Hret by assumption.
    split; [done|congruence].
  - rewrite normalize_throws in Hret; [discriminate|].
    unfold normalizable in Hn. apply andb_false_iff in Hn.
    destruct Hn as [Hn|Hn]; apply negb_false_iff in Hn; auto.
Qed.

Lemma mapM_normalize_returns (elems : list value) :
  Forall (λ raw, normalizable raw = true) elems →
  mapM mapApiProductToProduct elems = Normal (normalized <$> elems).
Proof.
  induction 1 as [|raw elems Hraw _ IH]; [reflexivity|].
  apply normalizable_spec in Hraw as [Hraw Hprice].
  cbn [mapM]. rewrite normalize_returns by assumption.
  cbn [mbind completion_bind]. rewrite IH. reflexivity.
Qed.

Lemma mapM_normalize_throws (elems : list value) :
  Exists (λ raw, normalizable raw = false) elems →
  mapM mapApiProductToProduct elems = Throw TypeError.
Proof.
  induction 1 as [raw elems Hraw|raw elems _ IH]; cbn [mapM].
  - rewrite normalize_throws; [reflexivity|].
    unfold normalizable in Hraw. apply andb_false_iff in Hraw.
    destruct Hraw as [Hn|Hn]; apply negb_false_iff in Hn; auto.
  - destruct (mapApiProductToProduct raw) as [o|[]]; [|reflexivity].
    cbn [mbind completion_bind]. rewrite IH. reflexivity.
Qed.

(** X1: the catalog loads all or nothing.  When every record of the
    answer normalizes, the products are the normalized records, in order,
    and no error is set; when a single record does not (it or its [price]
    is [undefined] or [null]), when the answer is not an array, or when
    the request fails, the products stay what they were and the screen is
    the load error.  Loading is over in every case. *)
Theorem X1_fetch_all_or_nothing (st : Load) :
  (∀ elems, Forall (λ raw, normalizable raw = true) elems →
     fetchProducts (Normal (VArr elems)) st
     = mkLoad (normalized <$> elems) false None) ∧
  (∀ elems, Exists (λ raw, normalizable raw = false) elems →
     fetchProducts (Normal (VArr elems)) st
     = mkLoad (st_products st) false (Some load_failed)) ∧
  (∀ v, (∀ elems, v ≠ VArr elems) →
     fetchProducts (Normal v) st
     = mkLoad (st_products st) false (Some load_failed)) ∧
  (∀ e, fetchProducts (Throw e) st
        = mkLoad (st_products st) false (Some load_failed)) ∧
  render true (mkLoad (st_products st) false (Some load_failed))
  = ErrorScreen load_failed.
Proof.
  split; [|split; [|split; [|split]]].
  - intros elems Hall. unfold fetchProducts. cbn [mbind completion_bind array_map].
    by rewrite mapM_normalize_returns.
  - intros elems Hbad. unfold fetchProducts. cbn [mbind completion_bind array_map].
    by rewrite mapM_normalize_throws.
  - intros v Hv. unfold fetchProducts. cbn [mbind completion_bind].
    destruct v; try reflexivity. by destruct (Hv elems).
  - intros e. reflexivity.
  - reflexivity.
Qed.

Lemma X1_fetch_all_or_nothing_witness :
  fetchProducts (Normal (VArr [raw_jar; raw_zero_score])) initial_load
  = mkLoad [normalized raw_jar; normalized raw_zero_score] false None ∧
  fetchProducts (Normal (VArr [raw_jar; raw_without_price])) initial_load
  = mkLoad [] false (Some load_failed) ∧
  fetchProducts (Normal VNull) initial_load
  = mkLoad [] false (Some load_failed).
Proof.
  destruct (X1_fetch_all_or_nothing initial_load) as (Hok & Hbad & Hnot & _).
  split; [|split].
  - apply (Hok [raw_jar; raw_zero_score]).
    repeat constructor; vm_compute; reflexivity.
  - apply (Hbad [raw_jar; raw_without_price]).
    right. left. vm_compute. reflexivity.
  - apply Hnot. discriminate.
Defined.

(** ** The product card of a normalized product *)

Lemma or_default_truthy (a d : value) :
  truthy d = true → truthy (logical_or a d) = true.
Proof. unfold logical_or. intros Hd. by destruct (truthy a) eqn:Ha. Qed.

(** X2: whatever record the normalizer returns on, the card shows the
    product's own image (the fallback logo is never used, because the
    image is never falsy), the sustainability score is never 0 or absent,
    and the status is one of the two the interface allows, sold out
    exactly when the record says [sold_out]. *)
Theorem X2_normalized_card (raw : value) (o : ProductObj) :
  mapApiProductToProduct raw = Normal o →
  truthy (o_imageUrl o) = true ∧
  card_image o = o_imageUrl o ∧
  truthy (o_sustainabilityScore o) = true ∧
  (o_status o = VStr "available" ∨ o_status o = VStr "sold_out") ∧
  (card_sold_out o = true ↔ field raw "status" = VStr "sold_out").
Proof.
  intros [_ ->]%normalize_inv.
  assert (truthy (o_imageUrl (normalized raw)) = true) as Himg
    by (by apply or_default_truthy).
  split; [exact Himg|]. split; [by apply or_truthy|].
  split; [by apply or_default_truthy|].
  unfold card_sold_out. cbn [normalized o_status].
  destruct (strict_eq_str (field raw "status") "sold_out") eqn:Hst.
  - apply strict_eq_str_spec in Hst. split; [by right|]. by rewrite Hst.
  - split; [by left|]. split; [discriminate|].
    intros Heq. apply strict_eq_str_spec in Heq. congruence.
Qed.

Lemma X2_normalized_card_witness :
  card_image (normalized raw_zero_score) = VStr placeholder ∧
  o_status (normalized raw_zero_score) = VStr "available".
Proof.
  destruct (X2_normalized_card raw_zero_score (normalized raw_zero_score))
    as (_ & Himg & _ & _ & Hsold).
  - vm_compute. reflexivity.
  - split; [rewrite Himg|]; vm_compute; reflexivity.
Defined.

(** X3: on a record of the declared shape the normalizer returns an
    object that inhabits the [Product] interface, with prices that are
    numbers, an image that is a non-empty string, a score that is a
    non-zero number (so its badge is shown) and a status. *)
Theorem X3_shaped_record (raw : value) :
  has_item_shape raw = true →
  ∃ o p, mapApiProductToProduct raw = Normal o ∧ as_Product o = Some p ∧
    shows_score o = true ∧
    (∃ u, imageUrl p = Some u ∧ u ≠ "") ∧
    (∃ s, sustainabilityScore p = Some s ∧ s ≠ 0) ∧
    is_Some (status p).
Proof.
  intros Hshape.
  destruct (normalize_well_typed raw Hshape) as (o & p & Ho & Hp).
  exists o, p. split; [exact Ho|]. split; [exact Hp|].
  destruct o as [oi on od op ot oc ou os ost].
  pose proof Ho as [_ Heq]%normalize_inv.
  assert (truthy ou = true) as Hu.
  { injection Heq as _ _ _ _ _ _ -> _ _. by apply or_default_truthy. }
  assert (truthy os = true) as Hs.
  { injection Heq as _ _ _ _ _ _ _ -> _. by apply or_default_truthy. }
  assert (ost = VStr "available" ∨ ost = VStr "sold_out") as Hst.
  { injection Heq as _ _ _ _ _ _ _ _ ->.
    destruct (strict_eq_str _ _); auto. }
  unfold as_Product in Hp. cbn in Hp.
  destruct (as_string oi); [|discriminate]. cbn in Hp.
  destruct (as_string on); [|discriminate]. cbn in Hp.
  destruct (as_optional as_string od); [|discriminate]. cbn in Hp.
  destruct (as_number op); [|discriminate]. cbn in Hp.
  destruct (as_number ot); [|discriminate]. cbn in Hp.
  destruct (as_optional as_string oc); [|discriminate]. cbn in Hp.
  destruct ou as [| | | |u| |]; try discriminate.
  destruct os as [| | |[|score]| | |]; try discriminate.
  destruct Hst as [-> | ->]; cbn in Hp; injection Hp as <-; cbn.
  all: split; [reflexivity|].
  all: split; [exists u; split; [done|]; intros ->; discriminate|].
  all: split; [exists score; split; [done|]; intros ->; discriminate|].
  all: eauto.
Qed.

Lemma X3_shaped_record_witness :
  ∃ o p, mapApiProductToProduct raw_jar = Normal o ∧ as_Product o = Some p.
Proof.
  destruct (X3_shaped_record raw_jar) as (o & p & Ho & Hp & _).
  - vm_compute. reflexivity.
  - by exists o, p.
Defined.

(** ** Pages *)

Lemma total_nonneg (products : list Product) (q : Query) :
  0 ≤ total (computed products q).
Proof. rewrite computed_total. lia. Qed.

Lemma matching_sublist (products : list Product) (q : Query) :
  matching products q `sublist_of` products.
Proof.
  unfold matching. etrans; [apply by_search_sublist|apply by_category_sublist].
Qed.

Lemma total_le_products (products : list Product) (q : Query) :
  total (computed products q) ≤ Z.of_nat (length products).
Proof.
  rewrite computed_total.
  pose proof (sublist_length _ _ (matching_sublist products q)). lia.
Qed.

Lemma sorted_length (products : list Product) (q : Query) :
  Z.of_nat (length (sorted products q)) = total (computed products q).
Proof. reflexivity. Qed.

Lemma ceil_div_mono (a b : Z) : a ≤ b → ceil_div a pageSize ≤ ceil_div b pageSize.
Proof.
  intros Hab. unfold ceil_div, pageSize.
  pose proof (Z.div_le_mono (- b) (- a) 12). lia.
Qed.

Lemma totalPages_fits (c : Computed) :
  1 ≤ totalPages c ∧ total c ≤ totalPages c * pageSize.
Proof.
  unfold totalPages. pose proof (ceil_div_upper (total c) pageSize).
  unfold pageSize in *. lia.
Qed.

(** X4: the number of pages is the least number, at least 1, of pages
    of [pageSize] products that hold the whole result. *)
Theorem X4_totalPages_least (products : list Product) (q : Query) :
  let c := computed products q in
  1 ≤ totalPages c ∧
  total c ≤ totalPages c * pageSize ∧
  ∀ n, 1 ≤ n → total c ≤ n * pageSize → totalPages c ≤ n.
Proof.
  intros c. unfold totalPages.
  pose proof (ceil_div_upper (total c) pageSize).
  pose proof (ceil_div_lower (total c) pageSize).
  unfold pageSize in *. split; [lia|]. split; [lia|].
  intros n Hn Hfit. apply Z.max_lub; [done|]. nia.
Qed.

(** X5: a pagination button is disabled exactly when pressing it would
    leave the page where it is; from a page in range both buttons stay in
    range, and from a page after the last one [Next] goes to the last
    page. *)
Theorem X5_page_buttons (c : Computed) (p : Z) :
  (prev_disabled p = true ↔ prev_page p = p) ∧
  (next_disabled c p = true ↔ next_page c p = p) ∧
  (1 ≤ p ≤ totalPages c →
   1 ≤ prev_page p ≤ totalPages c ∧ 1 ≤ next_page c p ≤ totalPages c) ∧
  (totalPages c < p → next_page c p = totalPages c).
Proof.
  unfold prev_disabled, next_disabled, prev_page, next_page.
  rewrite !Z.eqb_eq. unfold totalPages. lia.
Qed.

Lemma chunks_join {A} (size n : nat) (l : list A) :
  (length l ≤ size * n)%nat →
  mjoin ((λ k, take size (drop (size * k) l)) <$> seq 0 n) = l.
Proof.
  revert l. induction n as [|n IH]; intros l Hlen.
  - destruct l; [done|]. simpl in Hlen. lia.
  - rewrite <- cons_seq, <- fmap_S_seq, fmap_cons, <- list_fmap_compose.
    cbn [mjoin list_join]. rewrite Nat.mul_0_r, drop_0.
    rewrite (list_fmap_ext _ (λ k, take size (drop (size * k) (drop size l)))).
    + rewrite IH; [apply take_drop|]. rewrite length_drop. lia.
    + intros i k _. simpl. rewrite drop_drop. do 2 f_equal. lia.
Qed.

Lemma page_items (products : list Product) (q : Query) (k : nat) :
  items (computed products (with_page q (Z.of_nat (S k))))
  = take 12 (drop (12 * k) (sorted products q)).
Proof.
  rewrite computed_items. cbn [page with_page]. unfold pageSize.
  rewrite slice_window by (idtac; lia).
  change (sorted products (with_page q (Z.of_nat (S k)))) with (sorted products q).
  f_equal. f_equal. lia.
Qed.

(** X6: the pages partition the result: the items of the pages 1 to
    [totalPages], one after the other, are the sorted result, every
    product on exactly one page and in order. *)
Theorem X6_pages_partition (products : list Product) (q : Query) :
  mjoin ((λ k, items (computed products (with_page q (Z.of_nat k))))
         <$> seq 1 (Z.to_nat (totalPages (computed products q))))
  = sorted products q.
Proof.
  rewrite <- fmap_S_seq, <- list_fmap_compose.
  rewrite (list_fmap_ext _ (λ k, take 12 (drop (12 * k) (sorted products q))))
    by (intros; apply page_items).
  apply chunks_join.
  pose proof (sorted_length products q) as Hlen.
  destruct (totalPages_fits (computed products q)) as [Hone Hfit].
  unfold pageSize in *. lia.
Qed.

(** X7: from page 1 on, a page shows [pageSize] products or what is left
    of the result after the pages before it, if that is less; so every
    page before the last one is full. *)
Theorem X7_page_length (products : list Product) (q : Query) :
  let c := computed products q in
  1 ≤ page q →
  Z.of_nat (length (items c))
  = Z.max 0 (Z.min pageSize (total c - (page q - 1) * pageSize)) ∧
  (page q < totalPages c → Z.of_nat (length (items c)) = pageSize).
Proof.
  intros c Hpage. subst c.
  assert (Z.of_nat (length (items (computed products q)))
          = Z.max 0 (Z.min pageSize
              (total (computed products q) - (page q - 1) * pageSize))) as Hlen.
  { rewrite computed_items. unfold pageSize.
    rewrite slice_window by (idtac; lia).
    rewrite length_take, length_drop.
    pose proof (sorted_length products q). lia. }
  split; [exact Hlen|]. intros Hlast. rewrite Hlen.
  unfold totalPages in Hlast.
  pose proof (ceil_div_lower (total (computed products q)) pageSize).
  unfold pageSize in *. lia.
Qed.

(** ** The controls *)

Lemma reachable_page_range (products : list Product) (q : Query) :
  reachable products q →
  1 ≤ page q ≤ Z.max 1 (ceil_div (Z.of_nat (length products)) pageSize).
Proof.
  induction 1 as [|q e _ IH]; [cbn; lia|].
  destruct e; cbn [handle page]; try exact IH.
  - unfold first_page. lia.
  - unfold prev_page. lia.
  - unfold next_page, totalPages.
    pose proof (ceil_div_mono _ _ (total_le_products products q)). lia.
Qed.

(** X8: whatever controls are used, in whatever order and with whatever
    values, the page stays between 1 and the number of pages of the
    unfiltered catalog; so the page items are always the window of the
    sorted result that starts at [(page - 1) * pageSize]. *)
Theorem X8_reachable_page (products : list Product) (q : Query) :
  reachable products q →
  1 ≤ page q ≤ Z.max 1 (ceil_div (Z.of_nat (length products)) pageSize) ∧
  items (computed products q)
  = take (Z.to_nat pageSize)
      (drop (Z.to_nat ((page q - 1) * pageSize)) (sorted products q)).
Proof.
  intros Hreach. pose proof (reachable_page_range _ _ Hreach) as Hrange.
  split; [exact Hrange|].
  rewrite computed_items. apply slice_window; unfold pageSize; lia.
Qed.

(** X9: [Clear Filters] always brings products back: in any state the
    controls can lead to, pressing it makes every product of the catalog
    match, and if the catalog is not empty the page shown is not empty
    either, although the button leaves the page number alone. *)
Theorem X9_clear_filters (products : list Product) (q : Query) :
  reachable products q →
  let q' := handle products q ClearFilters in
  page q' = page q ∧
  matching products q' = products ∧
  total (computed products q') = Z.of_nat (length products) ∧
  (products ≠ [] → items (computed products q') ≠ []).
Proof.
  intros Hreach q'. pose proof (reachable_page_range _ _ Hreach) as Hrange.
  assert (total (computed products q') = Z.of_nat (length products)) as Htotal
    by (by rewrite computed_total).
  split; [reflexivity|]. split; [reflexivity|]. split; [exact Htotal|].
  intros Hne. apply page_in_range_nonempty.
  - rewrite Htotal. destruct products; [done|]. simpl. lia.
  - unfold totalPages. rewrite Htotal. exact Hrange.
Qed.

(** X10: choosing a sort policy goes back to page 1 and leaves the total
    alone, so it shows the first [pageSize] products of the result under
    the new policy, and something whenever anything matches. *)
Theorem X10_pick_sort (products : list Product) (q : Query) (policy : string) :
  let q' := handle products q (PickSort policy) in
  page q' = 1 ∧
  total (computed products q') = total (computed products q) ∧
  items (computed products q')
  = take (Z.to_nat pageSize) (by_policy policy (matching products q)) ∧
  (0 < total (computed products q) → items (computed products q') ≠ []).
Proof.
  intros q'. subst q'.
  set (q' := handle products q (PickSort policy)).
  assert (total (computed products q') = total (computed products q)) as Htotal
    by (by rewrite !computed_total).
  assert (page q' = 1) as Hpage by reflexivity.
  split; [exact Hpage|]. split; [exact Htotal|]. split.
  - rewrite computed_items, Hpage. unfold pageSize.
    rewrite (slice_window _ 0 12) by (idtac; lia). reflexivity.
  - intros Hpos. apply page_in_range_nonempty; [by rewrite Htotal|].
    destruct (totalPages_fits (computed products q')) as [Hone _].
    rewrite Hpage. lia.
Qed.

(** ** Filtering and sorting together *)

Section SortCompose.
Context {A : Type} (key : A → Z) (comparefn : A → A → Z).
Hypothesis comparefn_key : ∀ x y, comparefn x y ≤ 0 ↔ key x ≤ key y.

Lemma StronglySorted_filter (R : A → A → Prop) (P : A → Prop)
    `{∀ x, Decision (P x)} (l : list A) :
  StronglySorted R l → StronglySorted R (filter P l).
Proof.
  induction 1 as [|x l Hl IH Hx]; [constructor|].
  rewrite filter_cons. case_decide; [|done].
  constructor; [done|]. rewrite Forall_forall in *.
  intros y [_ Hy]%list_elem_of_filter. auto.
Qed.

Lemma filter_sort (P : A → Prop) `{∀ x, Decision (P x)} (l : list A) :
  filter P (sort comparefn l) = sort comparefn (filter P l).
Proof.
  apply (sort_unique key); [done| |].
  - apply StronglySorted_filter, (sort_sorted key). done.
  - intros v. rewrite !list_filter_filter.
    rewrite !(list_filter_iff (λ x, key x = v ∧ P x) (λ x, P x ∧ key x = v))
      by (intros; tauto).
    rewrite <- !(list_filter_filter P (λ x, key x = v)).
    by rewrite (sort_stable key).
Qed.

Lemma sort_sort (l : list A) :
  sort comparefn (sort comparefn l) = sort comparefn l.
Proof.
  symmetry. apply (sort_unique key); [done| |done].
  by apply (sort_sorted key).
Qed.

Lemma StronglySorted_reverse (R : A → A → Prop) (l : list A) :
  StronglySorted R l → StronglySorted (flip R) (reverse l).
Proof.
  induction 1 as [|x l Hl IH Hx]; [constructor|].
  rewrite reverse_cons. apply StronglySorted_app_2; [|done|repeat constructor].
  intros y z Hy Hz. rewrite elem_of_reverse in Hy.
  apply list_elem_of_singleton in Hz. subst z.
  rewrite Forall_forall in Hx. by apply Hx.
Qed.

Lemma filter_key_unique (v : Z) (l : list A) :
  NoDup (key <$> l) → (length (filter (λ a, key a = v) l) ≤ 1)%nat.
Proof.
  induction l as [|x l IH]; [simpl; lia|].
  rewrite fmap_cons, NoDup_cons. intros [Hx Hl].
  rewrite filter_cons. case_decide as Hk; [|auto].
  assert (filter (λ a, key a = v) l = []) as ->; [|simpl; lia].
  destruct (filter (λ a, key a = v) l) as [|y k] eqn:Hf; [done|].
  assert (y ∈ filter (λ a, key a = v) l) as [Hy Hin]%list_elem_of_filter
    by (rewrite Hf; left).
  destruct Hx. rewrite Hk, <- Hy. by apply list_elem_of_fmap_2.
Qed.
End SortCompose.

Lemma by_policy_filter (policy : string) (P : Product → Prop)
    `{∀ p, Decision (P p)} (l : list Product) :
  by_policy policy (filter P l) = filter P (by_policy policy l).
Proof.
  unfold by_policy.
  destruct (String.eqb_spec policy "price_low") as [->|Hlow]; cbn [String.eqb].
  - symmetry. apply (filter_sort price). intros; lia.
  - destruct (String.eqb policy "price_high"); [|done].
    symmetry. apply (filter_sort (λ p, - price p)). intros; lia.
Qed.

Lemma by_policy_by_category (policy c : string) (l : list Product) :
  by_policy policy (by_category c l) = by_category c (by_policy policy l).
Proof.
  unfold by_category. destruct (String.eqb c "all"); [done|].
  apply by_policy_filter.
Qed.

Lemma by_policy_by_search (policy term : string) (l : list Product) :
  by_policy policy (by_search term l) = by_search term (by_policy policy l).
Proof.
  unfold by_search. destruct (String.eqb term ""); [done|].
  apply by_policy_filter.
Qed.

(** X11: the two filters commute: searching first and filtering by
    category afterwards keeps the same products in the same order, so the
    total does not depend on the order of the two steps. *)
Theorem X11_filters_commute (products : list Product) (q : Query) :
  matching products q
  = by_category (activeCategory q) (by_search (searchTerm q) products) ∧
  total (computed products q)
  = Z.of_nat (length (by_category (activeCategory q)
                        (by_search (searchTerm q) products))).
Proof.
  assert (matching products q
          = by_category (activeCategory q) (by_search (searchTerm q) products))
    as Hcomm.
  { unfold matching, by_category, by_search.
    destruct (String.eqb (activeCategory q) "all"),
             (String.eqb (searchTerm q) ""); try done.
    rewrite !list_filter_filter. apply list_filter_iff. tauto. }
  split; [exact Hcomm|]. by rewrite computed_total, Hcomm.
Qed.

(** X12: sorting commutes with the filters: the sorted result is what
    the two filters keep of the catalog sorted as a whole, so a product's
    place among the products shown is its place in the sorted catalog. *)
Theorem X12_sort_then_filter (products : list Product) (q : Query) :
  sorted products q
  = by_search (searchTerm q)
      (by_category (activeCategory q) (by_policy (sortBy q) products)) ∧
  sorted products q `sublist_of` by_policy (sortBy q) products.
Proof.
  assert (sorted products q
          = by_search (searchTerm q)
              (by_category (activeCategory q) (by_policy (sortBy q) products)))
    as Heq.
  { unfold sorted, matching.
    by rewrite by_policy_by_search, by_policy_by_category. }
  split; [exact Heq|]. rewrite Heq.
  etrans; [apply by_search_sublist|apply by_category_sublist].
Qed.

(** X13: sorting a sorted list again changes nothing, and when no two
    products have the same price, price descending is the reverse of
    price ascending (with equal prices it is not: both keep such products
    in their original order). *)
Theorem X13_policy_twice_and_reverse (policy : string) (result : list Product) :
  by_policy policy (by_policy policy result) = by_policy policy result ∧
  (NoDup (price <$> result) →
   by_policy "price_high" result = reverse (by_policy "price_low" result)).
Proof.
  split.
  - unfold by_policy.
    destruct (String.eqb_spec policy "price_low") as [->|Hlow]; cbn [String.eqb].
    + apply (sort_sort price). intros; lia.
    + destruct (String.eqb policy "price_high"); [|done].
      apply (sort_sort (λ p, - price p)). intros; lia.
  - intros Hdup. rewrite by_policy_price_low, by_policy_price_high.
    symmetry. apply (sort_unique (λ p, - price p)); [intros; lia| |].
    + eapply StronglySorted_mono;
        [|apply StronglySorted_reverse, (sort_sorted price); intros; lia].
      unfold flip. simpl. intros; lia.
    + intros v. rewrite filter_reverse.
      rewrite (list_filter_iff (λ p, - price p = v) (λ p, price p = - v))
        by (intros; lia).
      rewrite (list_filter_iff (λ p, - price p = v) (λ p, price p = - v) result)
        by (intros; lia).
      rewrite (sort_stable price) by (intros; lia).
      pose proof (filter_key_unique price (- v) result Hdup) as Hone.
      destruct (filter (λ p, price p = - v) result) as [|x [|y k]];
        [done|done|simpl in Hone; lia].
Qed.

Lemma X13_policy_twice_and_reverse_witness :
  by_policy "price_high" [clock; all_product]
  = reverse (by_policy "price_low" [clock; all_product]).
Proof.
  destruct (X13_policy_twice_and_reverse "popular" [clock; all_product]) as [_ Hrev].
  apply Hrev. apply (bool_decide_unpack (NoDup [300; 500])). vm_compute. exact I.
Defined.

(** ** Searching *)

Lemma append_assoc (a b c : string) : (a +:+ b) +:+ c = a +:+ (b +:+ c).
Proof.
  induction a as [|x a IH]; [by rewrite !append_empty|].
  by rewrite !append_String, IH.
Qed.

Lemma lower_ascii_idem (c : ascii) : lower_ascii (lower_ascii c) = lower_ascii c.
Proof. destruct c as [[] [] [] [] [] [] [] []]; reflexivity. Qed.

Lemma lower_text_idem (s : string) : lower_text (lower_text s) = lower_text s.
Proof. induction s as [|c s IH]; simpl; [done|]. by rewrite lower_ascii_idem, IH. Qed.

Lemma lower_text_empty (s : string) : lower_text s = "" ↔ s = "".
Proof. destruct s; simpl; split; congruence. Qed.

Lemma lower_text_append (a b : string) :
  lower_text (a +:+ b) = lower_text a +:+ lower_text b.
Proof.
  induction a as [|x a IH]; [by rewrite !append_empty|].
  rewrite append_String. simpl. by rewrite append_String, IH.
Qed.

Lemma is_ascii_append (a b : string) :
  is_ascii (a +:+ b) = is_ascii a && is_ascii b.
Proof.
  induction a as [|x a IH]; [by rewrite append_empty|].
  rewrite append_String. simpl. by rewrite IH, andb_assoc.
Qed.

Lemma by_search_filter (term : string) (l : list Product) :
  term ≠ "" → by_search term l = filter (matches term) l.
Proof.
  intros Hterm. unfold by_search.
  destruct (String.eqb_spec term ""); [contradiction|].
  apply filter_bool_prop, search_hit_spec.
Qed.

Lemma matches_lower (t t' : string) (p : Product) :
  toLowerCase t = toLowerCase t' → matches t p ↔ matches t' p.
Proof. unfold matches. by intros ->. Qed.

Lemma contains_inner (s a b c : string) :
  contains s (a +:+ b +:+ c) → contains s b.
Proof.
  intros (pre & post & ->). exists (pre +:+ a), (c +:+ post).
  by rewrite !append_assoc.
Qed.

Lemma filter_sublist_mono {A} (P Q : A → Prop) `{∀ x, Decision (P x)}
    `{∀ x, Decision (Q x)} (l : list A) :
  (∀ x, P x → Q x) → filter P l `sublist_of` filter Q l.
Proof.
  intros HPQ. induction l as [|x l IH]; [done|].
  rewrite !filter_cons. destruct (decide (P x)) as [HP|HP].
  - rewrite decide_True by auto. by apply sublist_skip.
  - destruct (decide (Q x)); [by apply sublist_cons|done].
Qed.

(** X14: the search uses the term only through its lower-casing: two
    terms with the same lower-casing, such as two that differ in case
    only, find the same products. *)
Theorem X14_search_term_case (products : list Product) (t t' : string) :
  keeps_empty toLowerCase →
  toLowerCase t = toLowerCase t' →
  by_search t products = by_search t' products.
Proof.
  intros Hempty Hcase. destruct (String.eqb_spec t "") as [->|Ht].
  - assert (t' = "") as ->; [|done].
    apply Hempty. rewrite <- Hcase. by apply Hempty.
  - assert (t' ≠ "") as Ht'.
    { intros ->. apply Ht, Hempty. rewrite Hcase. by apply Hempty. }
    rewrite !by_search_filter by done.
    apply list_filter_iff. intros p. by apply matches_lower.
Qed.

(** X15: for search terms in ASCII, a longer term never finds more: the
    products found for a term that contains [t] are among those found for
    [t], in the same order, whatever the text of the products; so typing
    further characters only narrows the result. *)
Theorem X15_search_narrows (products : list Product) (u t v : string) :
  lowers_ascii toLowerCase →
  is_ascii u = true → is_ascii t = true → is_ascii v = true →
  by_search (u +:+ t +:+ v) products `sublist_of` by_search t products.
Proof.
  intros Hlower Hu Ht' Hv.
  destruct (String.eqb_spec t "") as [->|Ht]; [apply by_search_sublist|].
  assert (u +:+ t +:+ v ≠ "") as Hlong.
  { destruct u; [|by rewrite append_String].
    rewrite append_empty. destruct t; [done|by rewrite append_String]. }
  rewrite !by_search_filter by done.
  apply filter_sublist_mono. intros p. unfold matches.
  rewrite (Hlower t) by done.
  rewrite (Hlower (u +:+ t +:+ v))
    by (by rewrite !is_ascii_append, Hu, Ht', Hv).
  rewrite !lower_text_append. intros [H|H]; [left|right];
    by eapply contains_inner.
Qed.

(** ** The category buttons *)

Lemma or_string_other (o : option string) (d c : string) :
  or_string o d = c → c ≠ d → o = Some c.
Proof.
  unfold or_string. destruct o as [s|]; [|congruence].
  destruct (String.eqb s ""); congruence.
Qed.

(** X16: every category button other than [all] and [uncategorized] is
    live: with an empty search its category has at least one product, and
    the first page shows one. *)
Theorem X16_category_buttons_live (products : list Product) (c policy : string) :
  c ∈ categories products → c ≠ "all" → c ≠ "uncategorized" →
  (∃ p, p ∈ products ∧ category p = Some c) ∧
  0 < total (computed products (mkQuery c "" policy 1)) ∧
  items (computed products (mkQuery c "" policy 1)) ≠ [].
Proof.
  intros Hin Hall Hunc.
  assert (∃ p, p ∈ products ∧ category p = Some c) as (p & Hp & Hcat).
  { unfold categories in Hin. apply elem_of_cons in Hin as [?|Hin]; [done|].
    apply elem_of_new_Set, list_elem_of_fmap in Hin as (p & Hc & Hp).
    exists p. split; [done|]. by eapply or_string_other. }
  assert (0 < total (computed products (mkQuery c "" policy 1))) as Hpos.
  { rewrite computed_total. unfold matching. cbn [activeCategory searchTerm].
    change (by_search "" ?l) with l. rewrite by_category_filter by done.
    assert (p ∈ filter (λ p, category p = Some c) products) as Hm
      by (by apply list_elem_of_filter).
    destruct (filter _ products); [by apply elem_of_nil in Hm|simpl; lia]. }
  split; [by exists p|]. split; [exact Hpos|].
  apply page_in_range_nonempty; [exact Hpos|].
  destruct (totalPages_fits (computed products (mkQuery c "" policy 1))) as [Hone _].
  cbn [page]. lia.
Qed.

(** * Properties of the API server's environment *)

Lemma or_string_nonempty (o : option string) (d : string) :
  d ≠ "" → or_string o d ≠ "".
Proof.
  intros Hd. unfold or_string. destruct o as [s|]; [|done].
  by destruct (String.eqb_spec s "").
Qed.

Lemma or_string_set (v d : string) : v ≠ "" → or_string (Some v) d = v.
Proof. intros Hv. simpl. by destruct (String.eqb_spec v ""). Qed.

Lemma lookup_env_default (k d j : string) (env : gmap string string) :
  env_default k d env !! j
  = if decide (k = j) then Some (or_string (env !! k) d) else env !! j.
Proof. unfold env_default. apply lookup_insert. Qed.

Lemma env_default_set (k d v : string) (env : gmap string string) :
  env !! k = Some v → v ≠ "" → env_default k d env = env.
Proof.
  intros Hk Hv. unfold env_default. rewrite Hk, or_string_set by done.
  by apply insert_id.
Qed.

Lemma jwt_defaults_lookup (env : gmap string string) (k : string) :
  jwt_defaults env !! k
  = if decide (k ∈ jwt_keys)
    then Some (or_string (env !! k)
                 (if decide (k = "JWT_SECRET") then "dev_jwt_secret_change_me"
                  else if decide (k = "JWT_EXPIRES_IN") then "7d"
                  else if decide (k = "JWT_REFRESH_SECRET")
                       then "dev_refresh_secret_change_me"
                  else "30d"))
    else env !! k.
Proof.
  unfold jwt_defaults, jwt_keys. rewrite !lookup_env_default.
  repeat (case_decide; subst; try done);
    repeat match goal with
           | H : _ ∈ _ |- _ => apply elem_of_cons in H as [?|H]; subst; try done
           | H : _ ∈ [] |- _ => by apply elem_of_nil in H
           | H : ¬ (_ ∈ _) |- _ => rewrite !not_elem_of_cons in H; tauto
           end.
Qed.

(** X18: after the defaults at the head of the server module the four
    JWT variables are all set and non-empty; a variable that was set and
    non-empty keeps its value, an unset or empty one of the four gets its
    development default, no other variable changes, and applying the
    defaults again changes nothing. *)
Theorem X18_jwt_defaults (env : gmap string string) :
  (∀ k, k ∈ jwt_keys → ∃ v, jwt_defaults env !! k = Some v ∧ v ≠ "") ∧
  (∀ k v, env !! k = Some v → v ≠ "" → jwt_defaults env !! k = Some v) ∧
  ((env !! "JWT_SECRET" = None ∨ env !! "JWT_SECRET" = Some "") →
   jwt_defaults env !! "JWT_SECRET" = Some "dev_jwt_secret_change_me") ∧
  (∀ k, k ∉ jwt_keys → jwt_defaults env !! k = env !! k) ∧
  jwt_defaults (jwt_defaults env) = jwt_defaults env ∧
  root_environment (jwt_defaults env) = root_environment env.
Proof.
  split; [|split; [|split; [|split; [|split]]]].
  - intros k Hk. rewrite jwt_defaults_lookup, decide_True by done.
    eexists. split; [reflexivity|]. apply or_string_nonempty.
    repeat case_decide; done.
  - intros k v Hk Hv. rewrite jwt_defaults_lookup.
    case_decide; [|done]. by rewrite Hk, or_string_set.
  - intros Hunset. rewrite jwt_defaults_lookup.
    rewrite decide_True by (unfold jwt_keys; left).
    by destruct Hunset as [-> | ->].
  - intros k Hk. by rewrite jwt_defaults_lookup, decide_False.
  - apply map_eq. intros k. rewrite (jwt_defaults_lookup (jwt_defaults env)).
    case_decide as Hk; [|done].
    rewrite (jwt_defaults_lookup env), decide_True by done.
    f_equal. apply or_string_set, or_string_nonempty.
    repeat case_decide; done.
  - unfold root_environment. rewrite jwt_defaults_lookup.
    rewrite decide_False; [done|].
    unfold jwt_keys. rewrite !not_elem_of_cons. repeat split; try done.
    apply not_elem_of_nil.
Qed.

Lemma X18_jwt_defaults_witness :
  jwt_defaults {[ "JWT_EXPIRES_IN" := "1h"; "JWT_SECRET" := "" ]} !! "JWT_EXPIRES_IN"
  = Some "1h" ∧
  jwt_defaults {[ "JWT_EXPIRES_IN" := "1h"; "JWT_SECRET" := "" ]} !! "JWT_SECRET"
  = Some "dev_jwt_secret_change_me" ∧
  jwt_defaults {[ "JWT_EXPIRES_IN" := "1h"; "JWT_SECRET" := "" ]} !! "PORT" = None.
Proof.
  destruct (X18_jwt_defaults {[ "JWT_EXPIRES_IN" := "1h"; "JWT_SECRET" := "" ]})
    as (_ & Hkept & Hdefault & Hother & _).
  split; [|split].
  - apply Hkept; [vm_compute; reflexivity|discriminate].
  - apply Hdefault. right. vm_compute. reflexivity.
  - rewrite Hother; [vm_compute; reflexivity|].
    unfold jwt_keys. rewrite !not_elem_of_cons. repeat split; try done.
    apply not_elem_of_nil.
Defined.

(** * Properties of the pricing repair script *)

Lemma fix_one_other (db : gmap string FactoryProduct)
    (found : string * FactoryProduct) (j : string) :
  found.1 ≠ j → fix_one db found !! j = db !! j.
Proof. intros Hne. unfold fix_one, findByIdAndUpdate. by apply lookup_alter_ne. Qed.

Lemma fix_one_same (db : gmap string FactoryProduct) (i : string)
    (d : FactoryProduct) :
  db !! i = Some d → fix_one db (i, d) !! i = Some (repriced d).
Proof.
  intros Hd. unfold fix_one, findByIdAndUpdate. cbn [fst snd].
  rewrite lookup_alter_eq, Hd. reflexivity.
Qed.

Lemma foldl_fix_other (l : list (string * FactoryProduct))
    (db : gmap string FactoryProduct) (j : string) :
  j ∉ l.*1 → foldl fix_one db l !! j = db !! j.
Proof.
  revert db. induction l as [|[i d] l IH]; intros db Hj; [done|].
  rewrite fmap_cons, not_elem_of_cons in Hj. destruct Hj as [Hne Hj].
  cbn [foldl]. rewrite IH by done. by apply fix_one_other.
Qed.

Lemma foldl_fix_found (l : list (string * FactoryProduct))
    (db : gmap string FactoryProduct) (j : string) (d : FactoryProduct) :
  NoDup l.*1 → (j, d) ∈ l → db !! j = Some d →
  foldl fix_one db l !! j = Some (repriced d).
Proof.
  revert db. induction l as [|[i d'] l IH]; intros db Hdup Hin Hd.
  - by apply elem_of_nil in Hin.
  - rewrite fmap_cons, NoDup_cons in Hdup. destruct Hdup as [Hi Hdup].
    cbn [foldl]. apply elem_of_cons in Hin as [Heq|Hin].
    + injection Heq as <- <-.
      rewrite foldl_fix_other by done. by apply fix_one_same.
    + apply IH; [done|done|].
      rewrite fix_one_other; [done|]. cbn. intros ->.
      apply Hi. by apply (list_elem_of_fmap_2 fst) in Hin.
Qed.

Lemma find_selected_spec (db : gmap string FactoryProduct) (i : string)
    (d : FactoryProduct) :
  (i, d) ∈ find_selected db ↔ db !! i = Some d ∧ selected d.
Proof.
  unfold find_selected.
  by rewrite elem_of_map_to_list, map_lookup_filter_Some.
Qed.

Lemma fix_lookup (db : gmap string FactoryProduct) (i : string) :
  db_after (fixExistingProductPricing true db) !! i
  = (λ d, if decide (selected d) then repriced d else d) <$> db !! i.
Proof.
  cbn [fixExistingProductPricing db_after].
  destruct (db !! i) as [d|] eqn:Hd; cbn.
  - destruct (decide (selected d)) as [Hsel|Hsel].
    + apply foldl_fix_found; [apply NoDup_fst_map_to_list| |done].
      by apply find_selected_spec.
    + rewrite foldl_fix_other; [done|].
      intros ((j & d') & Hj & Hin)%list_elem_of_fmap. cbn in Hj. subst j.
      apply find_selected_spec in Hin as [Hd' Hsel']. congruence.
  - rewrite foldl_fix_other; [done|].
    intros ((j & d') & Hj & Hin)%list_elem_of_fmap. cbn in Hj. subst j.
    apply find_selected_spec in Hin as [Hd' _]. congruence.
Qed.

Lemma fix_lookup_Some (db : gmap string FactoryProduct) (i : string)
    (d : FactoryProduct) :
  db !! i = Some d →
  db_after (fixExistingProductPricing true db) !! i
  = Some (if decide (selected d) then repriced d else d).
Proof. intros Hd. by rewrite fix_lookup, Hd. Qed.

(** X19: what a run of the repair script does to the collection.  A
    document whose selling price is below 200 gets its cost price as
    selling price and its old selling price as token price, whether or
    not the selling price was below the cost price; every other document,
    and the cost price and name of every document, stay as they are; no
    document is added or removed.  The run reports the number of
    documents selected and exits with 0; without a database connection
    nothing changes and it exits with 1. *)
Theorem X19_repair_run (db : gmap string FactoryProduct) :
  let r := fixExistingProductPricing true db in
  (∀ i d, db !! i = Some d →
     ∃ d', db_after r !! i = Some d' ∧
       productInfo_name d' = productInfo_name d ∧
       costPrice (pricing d') = costPrice (pricing d) ∧
       (sellingPrice (pricing d) < 200 →
          sellingPrice (pricing d') = costPrice (pricing d) ∧
          ecoTokenDiscount (pricing d') = sellingPrice (pricing d)) ∧
       (200 ≤ sellingPrice (pricing d) → d' = d)) ∧
  (∀ i, db !! i = None → db_after r !! i = None) ∧
  fixed_count r = size (filter (λ kv, selected kv.2) db) ∧
  exit_code r = 0 ∧
  fixExistingProductPricing false db = mkRun db 0 1.
Proof.
  intros r. subst r. split; [|split; [|split; [|split]]].
  - intros i d Hd. eexists. split; [by apply fix_lookup_Some|].
    unfold selected. destruct (decide _) as [Hsel|Hsel]; cbn;
      repeat split; try done; intros; lia.
  - intros i Hd. by rewrite fix_lookup, Hd.
  - cbn. unfold find_selected. apply length_map_to_list.
  - reflexivity.
  - reflexivity.
Qed.

Lemma X19_repair_run_witness :
  db_after (fixExistingProductPricing true factory_db) !! "f2"
  = Some (mkFactoryProduct "Jute Bag" (mkPricing 150 150 120)) ∧
  db_after (fixExistingProductPricing true factory_db) !! "f3"
  = Some (mkFactoryProduct "Planter" (mkPricing 400 450 90)).
Proof.
  destruct (X19_repair_run factory_db) as (Hdoc & _).
  destruct (Hdoc "f2" (mkFactoryProduct "Jute Bag" (mkPricing 150 120 0)))
    as (d2 & Hd2 & Hname2 & Hcost2 & Hlow2 & _); [vm_compute; reflexivity|].
  destruct (Hdoc "f3" (mkFactoryProduct "Planter" (mkPricing 400 450 90)))
    as (d3 & Hd3 & _ & _ & _ & Hhigh3); [vm_compute; reflexivity|].
  split.
  - rewrite Hd2. destruct Hlow2 as [Hsell Htok]; [cbn; lia|].
    destruct d2 as [n [c s t]]. cbn in *. by subst.
  - rewrite Hd3, Hhigh3; [reflexivity|cbn; lia].
Defined.

(** X20: the repair script is not safe to run twice.  A document that
    the first run dealt with and whose cost price is itself below 200 is
    selected again, and the second run replaces its token price by the
    cost price, so the original selling price is lost.  When every
    selected document has a cost price of 200 or more, a second run finds
    nothing to repair and changes nothing. *)
Theorem X20_repair_rerun (db : gmap string FactoryProduct) :
  let once := db_after (fixExistingProductPricing true db) in
  let again := fixExistingProductPricing true once in
  (∀ i d, db !! i = Some d → selected d → costPrice (pricing d) < 200 →
     db_after again !! i
     = Some (mkFactoryProduct (productInfo_name d)
               (mkPricing (costPrice (pricing d)) (costPrice (pricing d))
                  (costPrice (pricing d))))) ∧
  ((∀ i d, db !! i = Some d → selected d → 200 ≤ costPrice (pricing d)) →
   db_after again = once ∧ fixed_count again = 0%nat).
Proof.
  intros once again. subst once again. split.
  - intros i d Hd Hsel Hcost.
    rewrite (fix_lookup_Some _ i (repriced d)).
    + rewrite decide_True by (unfold selected; cbn; lia). reflexivity.
    + rewrite (fix_lookup_Some db i d Hd). by rewrite decide_True.
  - intros Hsafe.
    assert (∀ i d, db_after (fixExistingProductPricing true db) !! i = Some d →
              ¬ selected d) as Hnone.
    { intros i d. rewrite fix_lookup.
      destruct (db !! i) as [d0|] eqn:Hd0; [|discriminate]. cbn.
      destruct (decide (selected d0)) as [Hsel|Hsel]; intros [= <-]; [|done].
      specialize (Hsafe i d0 Hd0 Hsel). unfold selected. cbn. lia. }
    set (once := db_after (fixExistingProductPricing true db)) in *.
    split.
    + apply map_eq. intros i. rewrite (fix_lookup once i).
      destruct (once !! i) as [d|] eqn:Hd; [|done].
      cbn. by rewrite decide_False by eauto.
    + change (fixed_count (fixExistingProductPricing true once))
        with (length (find_selected once)).
      destruct (find_selected once) as [|[i d] l] eqn:Hfound; [done|].
      assert ((i, d) ∈ find_selected once) as Hin by (rewrite Hfound; left).
      apply find_selected_spec in Hin as [Hd Hsel].
      destruct (Hnone i d Hd Hsel).
Qed.

Lemma X20_repair_rerun_witness :
  db_after (fixExistingProductPricing true
              (db_after (fixExistingProductPricing true factory_db))) !! "f2"
  = Some (mkFactoryProduct "Jute Bag" (mkPricing 150 150 150)).
Proof.
  destruct (X20_repair_rerun factory_db) as [Hlost _].
  apply (Hlost "f2" (mkFactoryProduct "Jute Bag" (mkPricing 150 120 0))).
  - vm_compute. reflexivity.
  - unfold selected. cbn. lia.
  - cbn. lia.
Defined.

(** * Further properties of the view and of the pricing line *)

(** X21: the products on a page are products of the catalog, in an order
    the catalog's products can be put in, and when the catalog's ids are
    distinct so are the ids on the page (they are the keys of the
    cards). *)
Theorem X21_page_of_catalog (products : list Product) (q : Query) :
  (∀ p, p ∈ items (computed products q) → p ∈ products) ∧
  (NoDup (id <$> products) → NoDup (id <$> items (computed products q))).
Proof.
  assert (items (computed products q) `sublist_of` sorted products q) as Hpage
    by (rewrite computed_items; apply slice_sublist).
  assert (sorted products q ≡ₚ matching products q) as Hperm
    by apply by_policy_Permutation.
  split.
  - intros p Hp. eapply elem_of_sublist in Hp; [|exact Hpage].
    rewrite Hperm in Hp. eapply elem_of_sublist; [exact Hp|].
    apply matching_sublist.
  - intros Hdup. eapply sublist_NoDup; [|apply fmap_sublist, Hpage].
    rewrite Hperm. eapply sublist_NoDup; [exact Hdup|].
    apply fmap_sublist, matching_sublist.
Qed.

(** X22: the amount on the total line lies between the subtotal minus
    five times the token subtotal and the subtotal whenever the token
    subtotal and the balance are not negative, and it never goes up when
    the balance does; a negative balance or token subtotal, though, is
    not held at 0 and raises the total above the subtotal. *)
Theorem X22_final_total_bounds (subtotal tokens : Z) (user user' : option User) :
  (0 ≤ tokens → 0 ≤ totalEcoTokens user →
   subtotal - tokens * 5 ≤ finalTotal subtotal tokens user ≤ subtotal) ∧
  (totalEcoTokens user ≤ totalEcoTokens user' →
   finalTotal subtotal tokens user' ≤ finalTotal subtotal tokens user) ∧
  (subtotal < finalTotal subtotal tokens user ↔
   tokens < 0 ∨ totalEcoTokens user < 0).
Proof.
  unfold finalTotal, maxTokensUsable. rewrite !Math_min_spec. lia.
Qed.

Lemma X22_final_total_bounds_witness :
  950 ≤ finalTotal 1000 10
          (Some {| ecoWallet := Some {| currentBalance := Some 4 |} |}) ≤ 1000 ∧
  1000 < finalTotal 1000 10
           (Some {| ecoWallet := Some {| currentBalance := Some (-3) |} |}).
Proof.
  destruct (X22_final_total_bounds 1000 10
              (Some {| ecoWallet := Some {| currentBalance := Some 4 |} |}) None)
    as (Hbounds & _).
  destruct (X22_final_total_bounds 1000 10
              (Some {| ecoWallet := Some {| currentBalance := Some (-3) |} |}) None)
    as (_ & _ & Hraised).
  split.
  - apply Hbounds; [lia|vm_compute; discriminate].
  - apply Hraised. right. vm_compute. reflexivity.
Defined.

End Engine.

(** * Instances

    The theorems above at sample data, with the ASCII lower-casing as the
    engine's. *)

Lemma lower_text_lowers_ascii : lowers_ascii lower_text.
Proof. intros s _. reflexivity. Qed.

Lemma lower_text_keeps_empty : keeps_empty lower_text.
Proof. intros s. apply lower_text_empty. Qed.

Lemma C2_pagination_witness :
  items (computed lower_text three (mkQuery "all" "" "popular" 1)) = three ∧
  items (computed lower_text three (mkQuery "all" "" "popular" 2)) = [].
Proof.
  destruct (C2_pagination lower_text three (mkQuery "all" "" "popular" 1))
    as (_ & Hwindow & _).
  destruct (C2_pagination lower_text three (mkQuery "all" "" "popular" 2))
    as (_ & _ & _ & Hbeyond & _).
  split.
  - rewrite Hwindow; [reflexivity|]. simpl. lia.
  - apply Hbeyond. vm_compute. reflexivity.
Defined.

Lemma C3_category_filter_witness :
  total (computed lower_text three (mkQuery "home" "" "popular" 1)) = 1 ∧
  Forall (λ p, category p = Some "home")
    (items (computed lower_text three (mkQuery "home" "" "popular" 1))).
Proof.
  destruct (C3_category_filter lower_text three (mkQuery "home" "" "popular" 1))
    as [H _].
  destruct H as (_ & Hitems & _ & _ & Htotal); [discriminate|].
  split; [|exact Hitems].
  rewrite Htotal; reflexivity.
Defined.

Lemma C5_search_filter_witness :
  by_search lower_text "bamboo" three = [clock_a] ∧
  matches lower_text "bamboo" clock_a.
Proof.
  destruct (C5_search_filter lower_text three "bamboo")
    as (Hfilter & _ & Hbamboo & _).
  { intros s _. reflexivity. }
  destruct Hfilter as [Hfilter _]; [discriminate|].
  split.
  - rewrite Hfilter. vm_compute. reflexivity.
  - apply Hbamboo. reflexivity.
Defined.

Lemma X4_totalPages_least_witness :
  totalPages (computed lower_text three initial_query) ≤ 1.
Proof.
  destruct (X4_totalPages_least lower_text three initial_query) as (_ & _ & Hleast).
  apply Hleast; [lia|]. vm_compute. discriminate.
Defined.

Lemma X5_page_buttons_witness :
  1 ≤ next_page (computed lower_text three initial_query) 1 ≤ 1 ∧
  next_page (computed lower_text three initial_query) 4 = 1.
Proof.
  destruct (X5_page_buttons (computed lower_text three initial_query) 1)
    as (_ & _ & Hin & _).
  destruct (X5_page_buttons (computed lower_text three initial_query) 4)
    as (_ & _ & _ & Hout).
  split.
  - apply Hin. vm_compute. split; discriminate.
  - rewrite Hout; vm_compute; reflexivity.
Defined.

Lemma X7_page_length_witness :
  Z.of_nat (length (items (computed lower_text three initial_query))) = 3.
Proof.
  destruct (X7_page_length lower_text three initial_query) as [Hlen _].
  - vm_compute. discriminate.
  - rewrite Hlen. vm_compute. reflexivity.
Defined.

Lemma X8_reachable_page_witness :
  1 ≤ page (handle lower_text three
              (handle lower_text three initial_query (PickCategory "home"))
              ClickNext)
    ≤ 1.
Proof.
  destruct (X8_reachable_page lower_text three
              (handle lower_text three
                 (handle lower_text three initial_query (PickCategory "home"))
                 ClickNext))
    as [Hrange _].
  - do 2 apply reachable_handle. apply reachable_initial.
  - exact Hrange.
Defined.

Lemma X9_clear_filters_witness :
  items (computed lower_text three
           (handle lower_text three
              (handle lower_text three initial_query (TypeSearch "zzz"))
              ClearFilters))
  ≠ [].
Proof.
  destruct (X9_clear_filters lower_text three
              (handle lower_text three initial_query (TypeSearch "zzz")))
    as (_ & _ & _ & Hshown).
  - apply reachable_handle, reachable_initial.
  - apply Hshown. discriminate.
Defined.

Lemma X10_pick_sort_witness :
  items (computed lower_text three
           (handle lower_text three initial_query (PickSort "price_low"))) ≠ [].
Proof.
  destruct (X10_pick_sort lower_text three initial_query "price_low")
    as (_ & _ & _ & Hshown).
  apply Hshown. vm_compute. reflexivity.
Defined.

Lemma X14_search_term_case_witness :
  by_search lower_text "BAMBOO" three = by_search lower_text "bamboo" three.
Proof.
  apply X14_search_term_case.
  - intros s. apply lower_text_empty.
  - reflexivity.
Defined.

Lemma X15_search_narrows_witness :
  by_search lower_text "bamboo wall" three
    `sublist_of` by_search lower_text "boo" three.
Proof.
  apply (X15_search_narrows lower_text three "bam" "boo" " wall").
  - intros s _. reflexivity.
  - reflexivity.
  - reflexivity.
  - reflexivity.
Defined.

Lemma X16_category_buttons_live_witness :
  items (computed lower_text three (mkQuery "fashion" "" "popular" 1)) ≠ [].
Proof.
  destruct (X16_category_buttons_live lower_text three "fashion" "popular")
    as (_ & _ & Hshown).
  - apply (bool_decide_unpack ("fashion" ∈ categories three)). vm_compute. exact I.
  - discriminate.
  - discriminate.
  - exact Hshown.
Defined.

Lemma X21_page_of_catalog_witness :
  NoDup (id <$> items (computed lower_text three (mkQuery "all" "a" "price_high" 1))).
Proof.
  destruct (X21_page_of_catalog lower_text three (mkQuery "all" "a" "price_high" 1))
    as [_ Hdup].
  apply Hdup. apply (bool_decide_unpack (NoDup ["a"; "b"; "c"])).
  vm_compute. exact I.
Defined.
